(** * AI text-to-image generator: generation client, gallery store, export

    A shallow embedding of [utils/hf_api_handler.py],
    [utils/gallery_manager.py] and the thumbnail helper of
    [utils/image_processor.py], with the properties of the fallback
    loop, batch generation, gallery bookkeeping and archive export.

    Conventions of the embedding:
    - a Python [str] is a [string] of 8-bit characters, [lower()] acts on
      the letters A to Z;
    - a Python [int] is a [Z];
    - effects on the outside world (requests to the inference endpoint,
      [time.sleep]) are recorded, in order, in a history of events that
      every effectful function threads through; the endpoint answers a
      request as a function of the history so far, so it may change its
      mind from one call to the next;
    - logging is not modelled. *)

From stdpp Require Import base list strings gmap.
From Stdlib Require Import ZArith QArith DecimalString DecimalPos DecimalZ Ascii.

Local Open Scope Z_scope.

(** ** Python built-ins used by the sources *)

Module Py.

Definition lower_char (c : ascii) : ascii :=
  let n := nat_of_ascii c in
  if (Nat.leb 65 n && Nat.leb n 90)%bool then ascii_of_nat (n + 32) else c.

(** [s.lower()] *)
Fixpoint lower (s : string) : string :=
  match s with
  | EmptyString => EmptyString
  | String c t => String (lower_char c) (lower t)
  end.

(** [s.startswith(p)] *)
Definition startswith (s p : string) : bool := String.prefix p s.

(** [needle in hay] *)
Fixpoint contains (needle hay : string) : bool :=
  String.prefix needle hay ||
  match hay with
  | EmptyString => false
  | String _ t => contains needle t
  end.

(** [str(n)] for an [int] *)
Definition str (n : Z) : string := NilZero.string_of_int (Z.to_int n).

(** Truth value of an optional string: [None] and the empty string are
    falsy. *)
Definition truthy (s : option string) : bool :=
  match s with
  | None | Some EmptyString => false
  | Some _ => true
  end.

(** [range(n)] *)
Definition range (n : Z) : list Z := Z.of_nat <$> seq 0 (Z.to_nat n).

(** [f"{n:0{w}d}"] for a non-negative [n] *)
Definition zfill (w : nat) (n : Z) : string :=
  let s := str n in
  String.concat EmptyString (replicate (w - String.length s) "0") +:+ s.

(** [s[:n]] *)
Definition take (n : nat) (s : string) : string := String.substring 0 n s.

(** [s.replace(c, '')] for a one-character [c] *)
Fixpoint remove_char (c : ascii) (s : string) : string :=
  match s with
  | EmptyString => EmptyString
  | String d t =>
      if Ascii.eqb c d then remove_char c t else String d (remove_char c t)
  end.

Definition nl : string := String (ascii_of_nat 10) EmptyString.

(** [c] does not occur in [s]. *)
Fixpoint free_of (c : ascii) (s : string) : Prop :=
  match s with
  | EmptyString => True
  | String d t => d ≠ c ∧ free_of c t
  end.

(** [range(start, stop, step)] for a positive [step] *)
Definition range_step (start stop step : Z) : list Z :=
  (λ k, start + Z.of_nat k * step)
  <$> seq 0 (Z.to_nat ((stop - start + step - 1) / step)).

(** [l[i:j]] for indices [0 <= i <= j] *)
Definition slice {A} (i j : Z) (l : list A) : list A :=
  firstn (Z.to_nat (j - i)) (skipn (Z.to_nat i) l).

(** [len(s)] *)
Definition len (s : string) : Z := Z.of_nat (String.length s).

(** The padding of [zfill]: [k] zeros. *)
Definition zeros (k : nat) : string :=
  String.concat EmptyString (replicate k "0").

End Py.

(** ** A raster image, as far as the sources look at one *)

Record Image := mkImage {
  im_size : Z * Z;
  im_mode : string;
  im_data : string
}.

(** ** [utils/hf_api_handler.py] *)

Module HfApiHandler.

(** The keyword arguments of [InferenceClient.text_to_image]. A keyword
    the caller leaves out keeps the library's default, [None]. *)
Record request := mkRequest {
  rq_prompt : string;
  rq_model : string;
  rq_negative_prompt : option string;
  rq_width : Z;
  rq_height : Z;
  rq_num_inference_steps : Z;
  rq_guidance_scale : Q;
  rq_seed : option Z
}.

Inductive event :=
| TextToImage (r : request)
| Sleep (seconds : Z).

(** What a call of the endpoint does: it returns an image or raises an
    exception [e], of which the code only reads [str(e)]. *)
Inductive response :=
| Returned (image : Image)
| Raised (error_msg : string).

Record client := mkClient { token : string }.

(** The configuration and the outside world. [DEFAULT_MODEL] is the
    constant of [config/settings.py]; [ALTERNATIVE_MODELS] is imported
    from there but not defined in it, and the api key comes from the
    process environment, so both are parameters. *)
Record Env := mkEnv {
  HUGGINGFACE_API_KEY : option string;
  ALTERNATIVE_MODELS : list string;
  (** [InferenceClient(token=...)]: [Some msg] when the constructor
      raises an exception with that text *)
  InferenceClient_raises : string → option string;
  (** the answer of the endpoint to a request, given all earlier events *)
  text_to_image : client → list event → request → response
}.

Definition DEFAULT_MODEL : string := "stabilityai/stable-diffusion-2-1".

(** State passing over the history of events. *)
Definition M (A : Type) : Type := list event → A * list event.

Definition ret {A} (a : A) : M A := λ h, (a, h).
Definition bind {A B} (m : M A) (k : A → M B) : M B :=
  λ h, let '(a, h') := m h in k a h'.

Notation "'let*' x ':=' m 'in' k" := (bind m (λ x, k))
  (at level 10, x name, m at level 100, k at level 200).

Definition call_text_to_image (env : Env) (c : client) (r : request)
  : M response :=
  λ h, (text_to_image env c h r, h ++ [TextToImage r]).

Definition sleep (seconds : Z) : M unit := λ h, (tt, h ++ [Sleep seconds]).

Definition get_client (env : Env) : option client :=
  if negb (Py.truthy (HUGGINGFACE_API_KEY env)) then None
  else
    match HUGGINGFACE_API_KEY env with
    | None => None
    | Some key =>
        match InferenceClient_raises env key with
        | None => Some (mkClient key)
        | Some _ => None
        end
    end.

(** The three tests of the [except] branch, in the order of the code. *)
Definition is_loading (error_msg : string) : bool :=
  Py.contains "loading" (Py.lower error_msg) || Py.contains "503" error_msg.

Definition is_rate_limited (error_msg : string) : bool :=
  Py.contains "429" error_msg || Py.contains "rate" (Py.lower error_msg).

Definition is_unauthorized (error_msg : string) : bool :=
  Py.contains "401" error_msg
  || Py.contains "unauthorized" (Py.lower error_msg).

(** The triple [(success, image, message)] every path returns. *)
Definition result : Type := bool * option Image * string.

Definition msg_no_client : string :=
  "Could not establish API connection. Check API key.".
Definition msg_success : string := "Image generated successfully!".
Definition msg_loading : string :=
  "Model is loading... Please wait 30 seconds and try again.".
Definition msg_rate_limit : string :=
  "Too many requests! Wait 1 minute and try again.".
Definition msg_unauthorized : string :=
  "API key is invalid! Get a new token from Hugging Face.".
Definition msg_all_failed : string :=
  "Could not generate image. Please try again later.".

(** The arguments of [generate_image] other than the seed. *)
Record gen_args := mkArgs {
  prompt : string;
  negative_prompt : string;
  width : Z;
  height : Z;
  num_steps : Z;
  guidance_scale : Q
}.

(** The request [generate_image] builds for one model. The [seed]
    argument of [generate_image] is not among the keywords it passes. *)
Definition request_for (a : gen_args) (model : string) : request :=
  {| rq_prompt := prompt a;
     rq_model := model;
     rq_negative_prompt :=
       if Py.truthy (Some (negative_prompt a))
       then Some (negative_prompt a) else None;
     rq_width := width a;
     rq_height := height a;
     rq_num_inference_steps := num_steps a;
     rq_guidance_scale := guidance_scale a;
     rq_seed := None |}.

(** [for model in models_to_try: try: ... except Exception as e: ...]
    with the statement after the loop as the empty case. *)
Fixpoint try_models (env : Env) (c : client) (a : gen_args)
    (models_to_try : list string) : M result :=
  match models_to_try with
  | [] => ret (false, None, msg_all_failed)
  | model :: rest =>
      let* r := call_text_to_image env c (request_for a model) in
      match r with
      | Returned image => ret (true, Some image, msg_success)
      | Raised error_msg =>
          if is_loading error_msg then ret (false, None, msg_loading)
          else if is_rate_limited error_msg
          then ret (false, None, msg_rate_limit)
          else if is_unauthorized error_msg
          then ret (false, None, msg_unauthorized)
          else try_models env c a rest
      end
  end.

Definition models_to_try (env : Env) : list string :=
  [DEFAULT_MODEL] ++ ALTERNATIVE_MODELS env.

Definition generate_image (env : Env) (a : gen_args) (seed : option Z)
  : M result :=
  match get_client env with
  | None => ret (false, None, msg_no_client)
  | Some c => try_models env c a (models_to_try env)
  end.

Definition msg_key_missing : string :=
  "API key not found! Check .env file.".
Definition msg_key_format : string :=
  "API key format is wrong! Should start with 'hf_'.".
Definition msg_ready : string := "API connection ready.".
Definition msg_connection_error (e : string) : string :=
  "API connection error: " +:+ e.

(** The three checks of [test_api_connection]: key present, key
    prefix, client construction inside [try]/[except]. *)
Definition test_api_connection (env : Env) : M (bool * string) :=
  if negb (Py.truthy (HUGGINGFACE_API_KEY env))
  then ret (false, msg_key_missing)
  else
    match HUGGINGFACE_API_KEY env with
    | None => ret (false, msg_key_missing)
    | Some key =>
        if negb (Py.startswith key "hf_") then ret (false, msg_key_format)
        else
          match InferenceClient_raises env key with
          | None => ret (true, msg_ready)
          | Some e => ret (false, msg_connection_error e)
          end
    end.

(** One entry of [successful_images]: the dictionary
    [{"image": image, "seed": current_seed}], whose image is the second
    component of the triple [generate_image] returned. *)
Record batch_entry := mkEntry {
  be_image : option Image;
  be_seed : Z
}.

Definition error_entry (i : Z) (message : string) : string :=
  "Image " +:+ Py.str (i + 1) +:+ ": " +:+ message.

(** The body of [for i in range(count)], over the indices still to
    run and the two lists built so far. *)
Fixpoint batch_loop (env : Env) (a : gen_args) (base_seed count : Z)
    (indices : list Z)
    (successful_images : list batch_entry) (error_messages : list string)
  : M (list batch_entry * list string) :=
  match indices with
  | [] => ret (successful_images, error_messages)
  | i :: later =>
      let current_seed := base_seed + i in
      let* r := generate_image env a (Some current_seed) in
      let '(success, image, message) := r in
      let successful_images' :=
        if success
        then successful_images ++ [mkEntry image current_seed]
        else successful_images in
      let error_messages' :=
        if success then error_messages
        else error_messages ++ [error_entry i message] in
      let* _ := (if i <? count - 1 then sleep 3 else ret tt) in
      batch_loop env a base_seed count later
        successful_images' error_messages'
  end.

(** [time_now] is the value [int(time.time())] takes in this call. *)
Definition generate_multiple_images (env : Env) (a : gen_args)
    (count : Z) (time_now : Z) : M (list batch_entry * list string) :=
  let base_seed := time_now in
  batch_loop env a base_seed count (Py.range count) [] [].

(** *** Vocabulary for the properties of the client *)

Inductive failure_class :=
| ServiceWarming
| RateLimited
| AuthInvalid
| OtherFailure.

(** The class of a failure, by the three tests in the order the
    [except] branch makes them. *)
Definition classify (error_msg : string) : failure_class :=
  if is_loading error_msg then ServiceWarming
  else if is_rate_limited error_msg then RateLimited
  else if is_unauthorized error_msg then AuthInvalid
  else OtherFailure.

Definition failure_message (k : failure_class) : string :=
  match k with
  | ServiceWarming => msg_loading
  | RateLimited => msg_rate_limit
  | AuthInvalid => msg_unauthorized
  | OtherFailure => msg_all_failed
  end.

(** The requests for a list of candidate models, in order. *)
Definition attempts (a : gen_args) (models : list string) : list event :=
  (λ model, TextToImage (request_for a model)) <$> models.

(** The answer candidate number [i] gets once the candidates before
    it have all been tried, starting from history [h0]. *)
Definition reply_at (env : Env) (c : client) (a : gen_args)
    (h0 : list event) (models : list string) (i : nat) : option response :=
  match models !! i with
  | None => None
  | Some model =>
      Some (text_to_image env c (h0 ++ attempts a (take i models))
              (request_for a model))
  end.

Definition failed_over (env : Env) (c : client) (a : gen_args)
    (h0 : list event) (models : list string) (i : nat) : Prop :=
  ∃ error_msg,
    reply_at env c a h0 models i = Some (Raised error_msg)
    ∧ classify error_msg = OtherFailure.

(** The attempts of a batch over the given indices: each index with
    the triple [generate_image] returned for it. *)
Fixpoint attempt_results (env : Env) (a : gen_args) (base_seed count : Z)
    (indices : list Z) (h : list event) : list (Z * result) :=
  match indices with
  | [] => []
  | i :: later =>
      let '(r, h') := generate_image env a (Some (base_seed + i)) h in
      let '(_, h'') := (if i <? count - 1 then sleep 3 else ret tt) h' in
      (i, r) :: attempt_results env a base_seed count later h''
  end.

(** What one attempt adds to the list of successes, and to the list
    of error messages. *)
Definition success_of (base_seed : Z) (o : Z * result)
  : option batch_entry :=
  let '(i, (success, image, _)) := o in
  if success then Some (mkEntry image (base_seed + i)) else None.

Definition error_of (o : Z * result) : option string :=
  let '(i, (success, _, message)) := o in
  if success then None
  else Some ("Image " +:+ Py.str (i + 1) +:+ ": " +:+ message).

Definition carries_no_seed (e : event) : Prop :=
  match e with
  | TextToImage r => rq_seed r = None
  | Sleep _ => True
  end.

Definition is_request (e : event) : bool :=
  match e with
  | TextToImage _ => true
  | Sleep _ => false
  end.

(** What the description of the connection test promises for a key:
    missing, malformed, and ready in every other case. *)
Definition connection_report_by_key (key : option string) : bool * string :=
  match key with
  | None | Some EmptyString => (false, msg_key_missing)
  | Some k =>
      if Py.startswith k "hf_" then (true, msg_ready)
      else (false, msg_key_format)
  end.

(** The pauses and the requests of a history, in order. *)
Definition sleeps (h : list event) : list Z :=
  omap (λ e, match e with Sleep seconds => Some seconds | _ => None end) h.

Definition requests (h : list event) : list request :=
  omap (λ e, match e with TextToImage r => Some r | _ => None end) h.

End HfApiHandler.

(** ** The two Pillow methods the sources call

    [Image.thumbnail] and [Image.save] belong to the imaging library; the
    sources only call them, so they are an interface here. *)

Class Pillow := {
  (** the content of an image after [im.thumbnail(max_size, LANCZOS)] *)
  Image_thumbnail : Image → Z * Z → Image;
  (** the bytes [im.save(buffer, format=...)] writes, [None] when it
      raises *)
  Image_save : Image → string → option string
}.

(** ** [utils/image_processor.py] *)

Module ImageProcessor.

(** [image.copy()] gives a fresh object with the same content. *)
Definition copy (image : Image) : Image := image.

Definition create_thumbnail `{Pillow} (image : Image) (max_size : Z * Z)
  : Image :=
  let thumbnail := copy image in
  Image_thumbnail thumbnail max_size.

End ImageProcessor.

(** ** Image objects

    [create_thumbnail] copies the image it is given and shrinks the
    copy in place. Which object is changed matters to the caller, so
    here the images are objects in a store and a reference is the
    index of its object in the list of the objects alive. *)

Module ImageObjects.

(** The quotient of [n] by [d] rounded to the nearest integer. *)
Definition round_div (n d : Z) : Z := (2 * n + d) / (2 * d).

(** Modelled from the spec: the size [Image.thumbnail] of the imaging
    library, which is no part of the sources, gives an image of size
    [size] in the box [max_size]. The spec has it scale down, never
    up, to fit fully inside the box, preserving the aspect ratio
    within rounding: an image that fits keeps its size; otherwise the
    side that needs the smaller scale factor takes the length of the
    box and the other side is scaled by the same factor and rounded. *)
Definition thumbnail_size (size max_size : Z * Z) : Z * Z :=
  let '(w, h) := size in
  let '(bw, bh) := max_size in
  if (w <=? bw) && (h <=? bh) then (w, h)
  else if bw * h <=? bh * w then (bw, round_div (h * bw) w)
  else (round_div (w * bh) h, bh).

(** Modelled from the spec: the content of an image after
    [Image.thumbnail(max_size, LANCZOS)] of the imaging library. The
    size is [thumbnail_size], the mode stays, an image that is not
    scaled keeps its pixels, and the pixels of a scaled one are those
    of the resampling filter, here [resample]. *)
Definition Image_thumbnail_spec (resample : Image → Z * Z → string)
    (im : Image) (max_size : Z * Z) : Image :=
  let size := thumbnail_size (im_size im) max_size in
  mkImage size (im_mode im)
    (if decide (size = im_size im) then im_data im else resample im size).

Definition spec_pillow (resample : Image → Z * Z → string)
    (save : Image → string → option string) : Pillow :=
  {| Image_thumbnail := Image_thumbnail_spec resample;
     Image_save := save |}.

(** Modelled from the spec: [Image.copy] of the imaging library makes a
    new object with the content of the one copied, and leaves every
    object there is as it was. [None]: the reference is to no
    object. *)
Definition Image_copy (image : nat) (heap : list Image)
  : option (nat * list Image) :=
  content ← heap !! image;
  Some (length heap, heap ++ [content]).

(** [im.thumbnail(max_size, LANCZOS)] changes the object [im] itself. *)
Definition Image_thumbnail_in_place `{Pillow} (im : nat) (max_size : Z * Z)
    (heap : list Image) : option (list Image) :=
  content ← heap !! im;
  Some (<[im := Image_thumbnail content max_size]> heap).

(** [create_thumbnail] of [utils/image_processor.py], statement by
    statement, on objects. *)
Definition create_thumbnail `{Pillow} (image : nat) (max_size : Z * Z)
    (heap : list Image) : option (nat * list Image) :=
  '(thumbnail, heap) ← Image_copy image heap;
  heap ← Image_thumbnail_in_place thumbnail max_size heap;
  Some (thumbnail, heap).

End ImageObjects.

(** ** [utils/gallery_manager.py] *)

Module GalleryManager.

Record datetime := mkDatetime {
  year : Z; month : Z; day : Z;
  hour : Z; minute : Z; second : Z
}.

(** [strftime('%Y%m%d_%H%M%S')]; the year is printed on four digits, as
    it is for every year from 1000 on. *)
Definition strftime_compact (t : datetime) : string :=
  Py.zfill 4 (year t) +:+ Py.zfill 2 (month t) +:+ Py.zfill 2 (day t)
  +:+ "_" +:+
  Py.zfill 2 (hour t) +:+ Py.zfill 2 (minute t) +:+ Py.zfill 2 (second t).

(** [strftime('%Y-%m-%d %H:%M:%S')] *)
Definition strftime_readable (t : datetime) : string :=
  Py.zfill 4 (year t) +:+ "-" +:+ Py.zfill 2 (month t) +:+ "-" +:+
  Py.zfill 2 (day t) +:+ " " +:+
  Py.zfill 2 (hour t) +:+ ":" +:+ Py.zfill 2 (minute t) +:+ ":" +:+
  Py.zfill 2 (second t).

(** A value of the [parameters] dictionary. *)
Inductive value :=
| VStr (s : string)
| VInt (n : Z)
| VFloat (q : Q).

(** The dictionary of one image. Every key but ["seed"] is read with a
    subscript, so it has to be there; ["seed"] is also read with
    [dict.get] and a default, so the record says whether the key is
    there ([None]: no such key) and, when it is, whether its value is
    [None] or an integer. *)
Record image_data := mkImageData {
  id : string;
  image : Image;
  thumbnail : Image;
  prompt : string;
  style : string;
  parameters : gmap string value;
  seed : option (option Z);
  created_at : datetime;
  favorite : bool
}.

Definition set_favorite (b : bool) (g : image_data) : image_data :=
  {| id := id g; image := image g; thumbnail := thumbnail g;
     prompt := prompt g; style := style g; parameters := parameters g;
     seed := seed g; created_at := created_at g; favorite := b |}.

(** The two keys of the Streamlit session the manager owns. *)
Record session_state := mkSession {
  gallery : list image_data;
  total_generated : Z
}.

(** [GalleryManager(session_state)] on a session that has neither key
    yet, as the application creates it. *)
Definition new_session : session_state :=
  {| gallery := []; total_generated := 0 |}.

Definition image_id_of (now : datetime) (counter : Z) : string :=
  "img_" +:+ strftime_compact now +:+ "_" +:+ Py.str counter.

(** [now_id] and [now_created] are the two readings of [datetime.now()]
    the method takes. *)
Definition add_image `{Pillow} (st : session_state)
    (image : Image) (prompt style : string)
    (parameters : gmap string value) (seed : option Z)
    (now_id now_created : datetime) : string * session_state :=
  let image_id := image_id_of now_id (total_generated st) in
  let thumbnail := ImageProcessor.create_thumbnail image (256, 256) in
  let image_data :=
    {| id := image_id; image := image; thumbnail := thumbnail;
       prompt := prompt; style := style; parameters := parameters;
       seed := Some seed; created_at := now_created; favorite := false |} in
  (image_id,
   {| gallery := gallery st ++ [image_data];
      total_generated := total_generated st + 1 |}).

Definition has_id (image_id : string) (g : image_data) : Prop :=
  id g = image_id.

Global Instance has_id_dec image_id g : Decision (has_id image_id g).
Proof. unfold has_id. apply _. Defined.

(** The loop over [enumerate(gallery)] stops at the first match. *)
Definition delete_image (st : session_state) (image_id : string)
  : bool * session_state :=
  match list_find (has_id image_id) (gallery st) with
  | Some (index, _) =>
      (true, {| gallery := delete index (gallery st);
                total_generated := total_generated st |})
  | None => (false, st)
  end.

Definition get_image (st : session_state) (image_id : string)
  : option image_data * session_state :=
  let found := filter (has_id image_id) (gallery st) in
  (head found, st).

Definition get_all_images (st : session_state)
  : list image_data * session_state :=
  (reverse (gallery st), st).

Definition gallery_size (st : session_state) : Z * session_state :=
  (Z.of_nat (length (gallery st)), st).

(** The assignment changes the dictionary in place, that is the list
    element at the index where the loop found it. *)
Definition toggle_favorite (st : session_state) (image_id : string)
  : option bool * session_state :=
  match list_find (has_id image_id) (gallery st) with
  | Some (index, image) =>
      let image' := set_favorite (negb (favorite image)) image in
      (Some (favorite image'),
       {| gallery := <[index := image']> (gallery st);
          total_generated := total_generated st |})
  | None => (None, st)
  end.

Definition get_favorites (st : session_state)
  : list image_data * session_state :=
  (filter (λ g, favorite g = true) (gallery st), st).

Definition clear_gallery (st : session_state) : session_state :=
  {| gallery := []; total_generated := total_generated st |}.

(** *** [create_zip]

    The archive is its members in the order of the [writestr] calls;
    compression and byte layout are those of [zipfile]. *)
Record zip_member := mkMember {
  member_name : string;
  member_data : string
}.

(** The characters of [invalid_characters], in its order: the quote is
    character 34 and the backslash character 92. *)
Definition invalid_characters : list ascii :=
  ["<"; ">"; ":"; ascii_of_nat 34; "/"; ascii_of_nat 92; "|"; "?"; "*"]%char.

Definition sanitize (prompt_short : string) : string :=
  foldl (λ acc char, Py.remove_char char acc) prompt_short
    invalid_characters.

Definition extension_of (file_format : string) : string :=
  if String.eqb file_format "JPEG" then "jpg" else Py.lower file_format.

Definition file_name_of (index : nat) (g : image_data)
    (file_format : string) : string :=
  let prompt_short := sanitize (Py.take 30 (prompt g)) in
  Py.zfill 2 (Z.of_nat index + 1) +:+ "_" +:+ prompt_short +:+ "."
  +:+ extension_of file_format.

(** The first loop: one [writestr] per image; [None] when [save]
    raises, which nothing in [create_zip] catches. *)
Fixpoint write_images `{Pillow} (index : nat) (images : list image_data)
    (file_format : string) (zip_file : list zip_member)
  : option (list zip_member) :=
  match images with
  | [] => Some zip_file
  | image_data :: later =>
      match Image_save (image image_data) file_format with
      | None => None
      | Some bytes =>
          write_images (S index) later file_format
            (zip_file ++ [mkMember (file_name_of index image_data file_format)
                                   bytes])
      end
  end.

(** [f"{image_data.get('seed', 'Not specified')}"] *)
Definition seed_text (g : image_data) : string :=
  match seed g with
  | None => "Not specified"
  | Some None => "None"
  | Some (Some n) => Py.str n
  end.

Definition metadata_block (index : nat) (g : image_data) : string :=
  "Image " +:+ Py.str (Z.of_nat index + 1) +:+ ":" +:+ Py.nl +:+
  "  Prompt: " +:+ prompt g +:+ Py.nl +:+
  "  Style: " +:+ style g +:+ Py.nl +:+
  "  Seed: " +:+ seed_text g +:+ Py.nl +:+
  "  Created: " +:+ strftime_readable (created_at g) +:+ Py.nl +:+
  Py.nl.

Definition metadata_header : string :=
  "AI Image Generator - Generation Info" +:+ Py.nl +:+
  String.concat EmptyString (replicate 50 "=") +:+ Py.nl +:+ Py.nl.

(** The second loop: [metadata += ...] for each image. *)
Fixpoint write_metadata (index : nat) (images : list image_data)
    (metadata : string) : string :=
  match images with
  | [] => metadata
  | image_data :: later =>
      write_metadata (S index) later
        (metadata +:+ metadata_block index image_data)
  end.

Definition create_zip `{Pillow} (images : list image_data)
    (file_format : string) : option (list zip_member) :=
  match write_images 0 images file_format [] with
  | None => None
  | Some zip_file =>
      let metadata := write_metadata 0 images metadata_header in
      Some (zip_file ++ [mkMember "generation_info.txt" metadata])
  end.

(** *** Sequences of calls on one manager *)

Inductive op :=
| AddImage (image : Image) (prompt style : string)
    (parameters : gmap string value) (seed : option Z)
    (now_id now_created : datetime)
| DeleteImage (image_id : string)
| GetImage (image_id : string)
| GetAllImages
| GallerySize
| ToggleFavorite (image_id : string)
| GetFavorites
| ClearGallery.

Inductive outcome :=
| OId (image_id : string)
| OBool (b : bool)
| OOptBool (b : option bool)
| ORecord (g : option image_data)
| ORecords (l : list image_data)
| OInt (n : Z)
| ONone.

Definition step `{Pillow} (st : session_state) (o : op)
  : outcome * session_state :=
  match o with
  | AddImage image prompt style parameters seed now_id now_created =>
      let '(r, st') :=
        add_image st image prompt style parameters seed now_id now_created
      in (OId r, st')
  | DeleteImage image_id =>
      let '(r, st') := delete_image st image_id in (OBool r, st')
  | GetImage image_id =>
      let '(r, st') := get_image st image_id in (ORecord r, st')
  | GetAllImages => let '(r, st') := get_all_images st in (ORecords r, st')
  | GallerySize => let '(r, st') := gallery_size st in (OInt r, st')
  | ToggleFavorite image_id =>
      let '(r, st') := toggle_favorite st image_id in (OOptBool r, st')
  | GetFavorites => let '(r, st') := get_favorites st in (ORecords r, st')
  | ClearGallery => (ONone, clear_gallery st)
  end.

(** Runs the calls in order; the log pairs each call with what it
    returned. *)
Fixpoint run `{Pillow} (st : session_state) (ops : list op)
  : list (op * outcome) * session_state :=
  match ops with
  | [] => ([], st)
  | o :: later =>
      let '(r, st') := step st o in
      let '(log, st'') := run st' later in
      ((o, r) :: log, st'')
  end.

(** Bookkeeping read off a log: the number of [add_image] calls, the
    ids they returned, and the balance of records added and deleted
    since the last [clear_gallery]. A [delete_image] counts when it
    deleted a record, that is when it returned [True]. *)
Definition is_add (e : op * outcome) : bool :=
  match e.1 with AddImage _ _ _ _ _ _ _ => true | _ => false end.

Definition adds (log : list (op * outcome)) : Z :=
  Z.of_nat (length (filter (λ e, is_add e = true) log)).

Definition added_id (e : op * outcome) : option string :=
  match e with
  | (AddImage _ _ _ _ _ _ _, OId i) => Some i
  | _ => None
  end.

Definition added_ids (log : list (op * outcome)) : list string :=
  omap added_id log.

Definition balance_step (n : Z) (e : op * outcome) : Z :=
  match e with
  | (AddImage _ _ _ _ _ _ _, _) => n + 1
  | (DeleteImage _, OBool true) => n - 1
  | (ClearGallery, _) => 0
  | _ => n
  end.

Definition balance (log : list (op * outcome)) : Z :=
  foldl balance_step 0 log.

(** Whether a record with this id is in the store. *)
Definition stored (st : session_state) (image_id : string) : bool :=
  bool_decide (image_id ∈ id <$> gallery st).

(** The size a sequence of calls accounts for, starting from [n] on
    the store [st]: one more for each [add_image], one less for each
    [delete_image] of an id that is stored when the call is made, zero
    after [clear_gallery]. *)
Definition size_step (st : session_state) (n : Z) (o : op) : Z :=
  match o with
  | AddImage _ _ _ _ _ _ _ => n + 1
  | DeleteImage image_id => if stored st image_id then n - 1 else n
  | ClearGallery => 0
  | _ => n
  end.

Fixpoint expected_size `{Pillow} (st : session_state) (n : Z)
    (ops : list op) : Z :=
  match ops with
  | [] => n
  | o :: later => expected_size (step st o).2 (size_step st n o) later
  end.

(** The same account with every [delete_image] call counted, whatever
    the id. *)
Definition calls_step (n : Z) (o : op) : Z :=
  match o with
  | AddImage _ _ _ _ _ _ _ => n + 1
  | DeleteImage _ => n - 1
  | ClearGallery => 0
  | _ => n
  end.

Definition calls_balance (ops : list op) : Z := foldl calls_step 0 ops.

(** [g'] is [g] up to the value of [favorite]. *)
Definition same_but_favorite (g g' : image_data) : Prop :=
  g' = set_favorite (favorite g') g.

(** The numbering of the stored records: ids pairwise distinct, each
    made of a counter value the store has already passed. *)
Definition well_numbered (st : session_state) : Prop :=
  0 ≤ total_generated st
  ∧ NoDup (id <$> gallery st)
  ∧ Forall (λ g, ∃ now counter,
              id g = image_id_of now counter
              ∧ 0 ≤ counter < total_generated st) (gallery st).

End GalleryManager.

(** ** [config/style_presets.py] and the helpers of [app.py] *)

Module App.

(** A dictionary literal, in the order it is written. *)
Fixpoint dict_get {V} (d : list (string * V)) (key : string) (default : V)
  : V :=
  match d with
  | [] => default
  | (k, v) :: rest =>
      if String.eqb k key then v else dict_get rest key default
  end.

Definition STYLE_PRESETS : list (string * list (string * string)) :=
  [ ("Photorealistic",
     [ ("prompt_suffix", ", photorealistic, ultra detailed, sharp focus, high resolution, 8k, professional photography, natural lighting");
       ("negative_prompt", "cartoon, anime, drawing, painting, blurry, low quality, distorted");
       ("description", "Detailed images that look like real photographs") ]);
    ("Digital Art",
     [ ("prompt_suffix", ", digital art, digital painting, artstation, concept art, smooth, vibrant colors");
       ("negative_prompt", "photo, photograph, blurry, noisy, grainy, low quality");
       ("description", "Modern digital illustration style") ]);
    ("Oil Painting",
     [ ("prompt_suffix", ", oil painting, classical art, brush strokes, canvas texture, traditional art, masterpiece");
       ("negative_prompt", "digital, photo, modern, cartoon, anime, blurry");
       ("description", "Classical oil painting appearance") ]);
    ("Watercolor",
     [ ("prompt_suffix", ", watercolor painting, soft colors, flowing, delicate, paper texture, artistic");
       ("negative_prompt", "digital, photo, sharp edges, bold lines, cartoon");
       ("description", "Soft and flowing watercolor effect") ]);
    ("Comic Book",
     [ ("prompt_suffix", ", comic book style, bold lines, cel shading, dynamic, colorful, superhero comic");
       ("negative_prompt", "realistic, photo, blurry, soft, watercolor");
       ("description", "Comic book and graphic novel style") ]);
    ("Anime",
     [ ("prompt_suffix", ", anime style, manga, japanese animation, cel shaded, vibrant, detailed eyes, studio ghibli");
       ("negative_prompt", "realistic, photo, western cartoon, blurry, low quality");
       ("description", "Japanese anime and manga style") ]);
    ("Minimalist",
     [ ("prompt_suffix", ", minimalist, simple, clean lines, geometric, limited colors, modern design, flat design");
       ("negative_prompt", "complex, detailed, busy, cluttered, realistic, photo");
       ("description", "Clean and simple minimalist design") ]);
    ("Abstract",
     [ ("prompt_suffix", ", abstract art, non-representational, shapes, colors, emotional, expressionist, modern art");
       ("negative_prompt", "realistic, photo, detailed, figurative, portrait");
       ("description", "Abstract and artistic expression") ]);
    ("3D Render",
     [ ("prompt_suffix", ", 3d render, octane render, cinema 4d, blender, realistic lighting, ray tracing, pixar style");
       ("negative_prompt", "2d, flat, drawing, sketch, painting, blurry");
       ("description", "3D modeling and render appearance") ]);
    ("Sketch",
     [ ("prompt_suffix", ", pencil sketch, hand drawn, graphite, black and white, shading, artistic sketch");
       ("negative_prompt", "color, painted, digital, photo, blurry");
       ("description", "Charcoal sketch and drawing style") ]) ].

(** [list(STYLE_PRESETS.keys())] *)
Definition STYLE_NAMES : list string := STYLE_PRESETS.*1.

Definition DEFAULT_STYLE : string := "Photorealistic".

Definition enrich_prompt (main_prompt style_name : string) : string :=
  let style := dict_get STYLE_PRESETS style_name [] in
  let prompt_suffix := dict_get style "prompt_suffix" EmptyString in
  main_prompt +:+ prompt_suffix.

Definition get_negative_prompt (style_name user_negative : string) : string :=
  let style := dict_get STYLE_PRESETS style_name [] in
  let style_negative := dict_get style "negative_prompt" EmptyString in
  if Py.truthy (Some user_negative) && Py.truthy (Some style_negative)
  then style_negative +:+ ", " +:+ user_negative
  else if Py.truthy (Some user_negative) then user_negative
  else style_negative.

(** The grid of [gallery_section]:
    [[all_images[i:i + 3] for i in range(0, len(all_images), 3)]] *)
Definition rows {A} (all_images : list A) : list (list A) :=
  (λ i, Py.slice i (i + 3) all_images)
  <$> Py.range_step 0 (Z.of_nat (length all_images)) 3.

(** The caption of a card: the first fifty characters of the prompt,
    with an ellipsis when the prompt is longer. *)
Definition caption_prompt (prompt : string) : string :=
  let prompt_short := Py.take 50 prompt in
  if 50 <? Py.len prompt then prompt_short +:+ "..." else prompt_short.

(** The loop of [main_content] that stores a batch: one [add_image] per
    entry, with the image and the seed of the entry. An entry whose
    image is [None] makes [create_thumbnail] raise, which nothing
    catches: the result is [None] then. [now k] gives the two readings
    of the clock in the [k]-th call. *)
Fixpoint store_batch `{Pillow} (st : GalleryManager.session_state)
    (successful_images : list HfApiHandler.batch_entry)
    (main_prompt style : string)
    (parameters : gmap string GalleryManager.value)
    (now : nat → GalleryManager.datetime * GalleryManager.datetime)
    (k : nat) : option GalleryManager.session_state :=
  match successful_images with
  | [] => Some st
  | image_data :: later =>
      match HfApiHandler.be_image image_data with
      | None => None
      | Some image =>
          let st' :=
            (GalleryManager.add_image st image main_prompt style parameters
               (Some (HfApiHandler.be_seed image_data))
               (now k).1 (now k).2).2 in
          store_batch st' later main_prompt style parameters now (S k)
      end
  end.

End App.

(** ** Sample data, for running the functions on concrete inputs *)

Module Samples.
Import GalleryManager.

(** A stand-in imaging back end: the thumbnail keeps the pixels and
    clamps the size to the box, the encoder tags the pixels with the
    format. *)
Definition sample_pillow : Pillow :=
  {| Image_thumbnail im box :=
       mkImage (Z.min (im_size im).1 box.1, Z.min (im_size im).2 box.2)
               (im_mode im) (im_data im);
     Image_save im file_format := Some (file_format +:+ ":" +:+ im_data im) |}.

Definition picture : Image := mkImage (512, 512) "RGB" "pixels".

Definition noon : datetime := mkDatetime 2025 1 2 12 0 0.

Definition no_parameters : gmap string value := ∅.

(** The store after [add_image(picture, "a cat", "Anime", {})], seed
    left at its default [None]. *)
Definition one_image : session_state :=
  (add_image (H := sample_pillow) new_session picture "a cat" "Anime"
     no_parameters None noon noon).2.

Definition one_image_id : string := "img_20250102_120000_0".

Import HfApiHandler.

Definition cat : gen_args := mkArgs "a cat" EmptyString 512 512 25 (75 # 10).

(** An endpoint that serves every request. *)
Definition healthy : Env :=
  {| HUGGINGFACE_API_KEY := Some "hf_abc";
     ALTERNATIVE_MODELS := ["runwayml/stable-diffusion-v1-5"];
     InferenceClient_raises := λ _, None;
     text_to_image := λ _ _ _, Returned picture |}.

(** An endpoint whose primary model fails with an unclassified error
    and whose alternate is still loading. *)
Definition warming_alternate : Env :=
  {| HUGGINGFACE_API_KEY := Some "hf_abc";
     ALTERNATIVE_MODELS := ["runwayml/stable-diffusion-v1-5"; "last/resort"];
     InferenceClient_raises := λ _, None;
     text_to_image := λ _ _ r,
       if String.eqb (rq_model r) DEFAULT_MODEL
       then Raised "500 Internal Server Error"
       else Raised "Model is currently loading" |}.

(** A well-formed key with a client constructor that raises. *)
Definition broken_constructor : Env :=
  {| HUGGINGFACE_API_KEY := Some "hf_abc";
     ALTERNATIVE_MODELS := [];
     InferenceClient_raises := λ _, Some "boom";
     text_to_image := λ _ _ _, Returned picture |}.

(** Of three attempts, counted by the requests already made, the
    second fails on every candidate model. *)
Definition second_fails : Env :=
  {| HUGGINGFACE_API_KEY := Some "hf_abc";
     ALTERNATIVE_MODELS := ["runwayml/stable-diffusion-v1-5"];
     InferenceClient_raises := λ _, None;
     text_to_image := λ _ h _,
       let made := length (filter (λ e, is_request e = true) h) in
       if bool_decide (made = 1%nat ∨ made = 2%nat)
       then Raised "500 Internal Server Error"
       else Returned picture |}.

End Samples.

(** * Properties *)

(** ** Decimal printing and string suffixes *)

Module PyFacts.
Import Py.

Lemma digits_free_of_underscore d :
  free_of "_" (NilEmpty.string_of_uint d).
Proof. induction d; simpl; try split; auto; discriminate. Qed.

Lemma str_free_of_underscore n : free_of "_" (Py.str n).
Proof.
  unfold Py.str.
  destruct (Z.to_int n) as [d|d]; simpl;
    [|split; [discriminate|]];
    (destruct d; simpl; try split; try discriminate; auto;
     apply digits_free_of_underscore).
Qed.

Lemma to_int_not_nil n :
  Z.to_int n ≠ Decimal.Pos Decimal.Nil ∧ Z.to_int n ≠ Decimal.Neg Decimal.Nil.
Proof.
  destruct n as [|p|p]; simpl; split; try discriminate;
    intros E; injection E as E; by apply Unsigned.to_uint_nonnil in E.
Qed.

Lemma str_inj n m : Py.str n = Py.str m → n = m.
Proof.
  unfold Py.str. intros E.
  apply DecimalZ.to_int_inj.
  destruct (to_int_not_nil n) as [Hn1 Hn2], (to_int_not_nil m) as [Hm1 Hm2].
  pose proof (NilZero.isi _ Hn1 Hn2) as En.
  pose proof (NilZero.isi _ Hm1 Hm2) as Em.
  rewrite E in En. congruence.
Qed.

Lemma app_String c s t : String c s +:+ t = String c (s +:+ t).
Proof. reflexivity. Qed.

Lemma app_Empty t : EmptyString +:+ t = t.
Proof. reflexivity. Qed.

Lemma app_assoc_string a b c : (a +:+ b) +:+ c = a +:+ (b +:+ c).
Proof.
  induction a as [|d a IH]; rewrite ?app_String, ?app_Empty; [done|].
  by rewrite IH.
Qed.

Lemma app_Empty_r a : a +:+ EmptyString = a.
Proof.
  induction a as [|d a IH]; rewrite ?app_String, ?app_Empty; [done|].
  by rewrite IH.
Qed.

Lemma not_free_of_app c a x : ¬ free_of c (a +:+ String c x).
Proof.
  induction a as [|d a IH]; rewrite ?app_String, ?app_Empty; simpl.
  - by intros [? _].
  - intros [_ ?]. auto.
Qed.

(** The text after the last occurrence of a separator is determined by
    the whole string. *)
Lemma last_field_inj c a b x y :
  free_of c x → free_of c y →
  a +:+ String c x = b +:+ String c y → x = y.
Proof.
  revert b. induction a as [|d a IH]; intros [|e b] Hx Hy E;
    rewrite ?app_String, ?app_Empty in E.
  - by injection E.
  - injection E as -> E. subst x. by apply not_free_of_app in Hx.
  - injection E as -> E. subst y. by apply not_free_of_app in Hy.
  - injection E as -> E. by apply (IH b).
Qed.

End PyFacts.

(** ** The gallery store *)

Module GalleryFacts.
Import GalleryManager.

Section Store.
Context `{Pillow}.

Lemma image_id_of_inj t1 c1 t2 c2 :
  image_id_of t1 c1 = image_id_of t2 c2 → c1 = c2.
Proof.
  unfold image_id_of. intros E.
  apply (inj (String.append "img_")) in E.
  apply PyFacts.str_inj.
  eapply PyFacts.last_field_inj, E; apply PyFacts.str_free_of_underscore.
Qed.

Lemma find_lt (l : list image_data) image_id index g :
  list_find (has_id image_id) l = Some (index, g) →
  l !! index = Some g ∧ id g = image_id.
Proof. intros [? [? _]]%list_find_Some. done. Qed.

Lemma step_total st o :
  total_generated (step st o).2 =
  total_generated st + (if is_add (o, (step st o).1) then 1 else 0).
Proof.
  destruct o; simpl; try lia.
  - unfold delete_image. destruct (list_find _ _) as [[??]|]; simpl; lia.
  - unfold toggle_favorite.
    destruct (list_find _ _) as [[??]|]; simpl; lia.
Qed.

Lemma step_size st o :
  Z.of_nat (length (gallery (step st o).2)) =
  balance_step (Z.of_nat (length (gallery st))) (o, (step st o).1).
Proof.
  destruct o; simpl; try done.
  - rewrite length_app. simpl. lia.
  - unfold delete_image.
    destruct (list_find _ _) as [[index g]|] eqn:E; simpl; [|done].
    apply find_lt in E as [E _].
    rewrite length_delete by eauto.
    apply lookup_lt_Some in E. lia.
  - unfold toggle_favorite.
    destruct (list_find _ _) as [[index g]|]; simpl; [|done].
    by rewrite length_insert.
Qed.

Lemma step_added_id st o :
  added_ids [(o, (step st o).1)] =
  if is_add (o, (step st o).1)
  then [image_id_of match o with
                    | AddImage _ _ _ _ _ now_id _ => now_id
                    | _ => mkDatetime 0 0 0 0 0 0
                    end (total_generated st)]
  else [].
Proof.
  by destruct o.
Qed.

Lemma run_cons st o later :
  run st (o :: later) =
  ((o, (step st o).1) :: (run (step st o).2 later).1,
   (run (step st o).2 later).2).
Proof.
  simpl. destruct (step st o) as [r st']. simpl.
  by destruct (run st' later).
Qed.

Lemma adds_cons e log :
  adds (e :: log) = (if is_add e then 1 else 0) + adds log.
Proof.
  unfold adds. rewrite filter_cons.
  destruct (is_add e); simpl; lia.
Qed.

Lemma added_ids_cons e log :
  added_ids (e :: log) = added_ids [e] ++ added_ids log.
Proof. unfold added_ids. simpl. by destruct (added_id e). Qed.

Lemma adds_nonneg log : 0 ≤ adds log.
Proof. unfold adds. lia. Qed.

(** What a run does to the two keys, from any state. *)
Lemma run_bookkeeping ops st :
  total_generated (run st ops).2 = total_generated st + adds (run st ops).1
  ∧ Z.of_nat (length (gallery (run st ops).2)) =
    foldl balance_step (Z.of_nat (length (gallery st))) (run st ops).1.
Proof.
  revert st. induction ops as [|o later IH]; intros st.
  - simpl. unfold adds. simpl. split; [lia|done].
  - rewrite run_cons. simpl.
    destruct (IH (step st o).2) as [IH1 IH2].
    rewrite IH1, IH2, adds_cons, step_total, step_size. split; [lia|done].
Qed.

(** Every id a run hands out carries a counter value the run passed
    through. *)
Lemma run_ids_counters ops st :
  Forall (λ i, ∃ t c, i = image_id_of t c ∧ total_generated st ≤ c)
         (added_ids (run st ops).1).
Proof.
  revert st. induction ops as [|o later IH]; intros st.
  - constructor.
  - rewrite run_cons. cbn [fst snd]. rewrite added_ids_cons.
    apply Forall_app. split.
    + rewrite step_added_id. destruct (is_add _); constructor; [|constructor].
      eexists _, _. split; [done|lia].
    + eapply Forall_impl; [apply IH|]. intros i (t & c & -> & Hc).
      exists t, c. split; [done|]. rewrite step_total in Hc.
      destruct (is_add _); lia.
Qed.

Lemma run_ids_nodup ops st : NoDup (added_ids (run st ops).1).
Proof.
  revert st. induction ops as [|o later IH]; intros st.
  - constructor.
  - rewrite run_cons. cbn [fst snd]. rewrite added_ids_cons.
    rewrite step_added_id.
    pose proof (run_ids_counters later (step st o).2) as Hlater.
    rewrite step_total in Hlater.
    destruct (is_add _); simpl; [|apply IH].
    constructor; [|apply IH].
    intros Hin. rewrite Forall_forall in Hlater.
    destruct (Hlater _ Hin) as (t & c & E & Hc).
    apply image_id_of_inj in E. lia.
Qed.

Lemma same_but_favorite_refl g : same_but_favorite g g.
Proof. by destruct g. Qed.

Lemma set_favorite_back g b :
  set_favorite (favorite g) (set_favorite b g) = g.
Proof. by destruct g. Qed.

Lemma find_after_insert (l : list image_data) image_id index g b :
  list_find (has_id image_id) l = Some (index, g) →
  list_find (has_id image_id) (<[index := set_favorite b g]> l) =
  Some (index, set_favorite b g).
Proof.
  intros (Hl & Hid & Hfirst)%list_find_Some.
  apply list_find_Some. split_and!.
  - apply list_lookup_insert_eq. by eapply lookup_lt_Some.
  - done.
  - intros j y Hj Hlt. rewrite list_lookup_insert_ne in Hj by lia.
    by eapply Hfirst.
Qed.

Lemma find_absent (l : list image_data) image_id :
  (∀ g, g ∈ l → id g ≠ image_id) →
  list_find (has_id image_id) l = None.
Proof.
  intros Hno. apply list_find_None, Forall_forall.
  intros g Hg. by apply Hno.
Qed.

Lemma filter_absent (l : list image_data) image_id :
  (∀ g, g ∈ l → id g ≠ image_id) → filter (has_id image_id) l = [].
Proof.
  induction l as [|g l IH]; intros Hno; [done|].
  rewrite filter_cons_False.
  - apply IH. intros g' Hg'. apply Hno. by right.
  - apply Hno. by left.
Qed.

Lemma find_stored (st : session_state) image_id :
  stored st image_id = true
  ↔ ∃ index g, list_find (has_id image_id) (gallery st) = Some (index, g).
Proof.
  unfold stored. rewrite bool_decide_eq_true, list_elem_of_fmap. split.
  - intros (g & -> & Hg).
    destruct (list_find (has_id (id g)) (gallery st)) as [[index g']|] eqn:E;
      [by eauto|].
    rewrite list_find_None, Forall_forall in E. by destruct (E g Hg).
  - intros (index & g & (Hg & Hid & _)%list_find_Some).
    exists g. split; [done|]. by eapply list_elem_of_lookup_2.
Qed.

Lemma delete_image_stored (st : session_state) image_id :
  (delete_image st image_id).1 = stored st image_id
  ∧ (gallery_size (delete_image st image_id).2).1
    = (gallery_size st).1 - (if stored st image_id then 1 else 0)
  ∧ (stored st image_id = false → (delete_image st image_id).2 = st).
Proof.
  pose proof (find_stored st image_id) as Hfind.
  unfold delete_image.
  destruct (list_find (has_id image_id) (gallery st)) as [[index g]|] eqn:E.
  - assert (stored st image_id = true) as -> by (apply Hfind; eauto).
    split_and!; [done| |done]. cbn [fst snd gallery_size gallery].
    apply find_lt in E as [Hg _]. rewrite length_delete by eauto.
    apply lookup_lt_Some in Hg. lia.
  - destruct (stored st image_id).
    + destruct Hfind as [(? & ? & [=]) _]; done.
    + split_and!; [done|cbn [fst snd gallery_size]; lia|done].
Qed.

Lemma step_expected_size (st : session_state) (o : op) :
  (gallery_size (step st o).2).1 = size_step st (gallery_size st).1 o.
Proof.
  destruct o; try done.
  - cbn [step add_image fst snd gallery_size gallery size_step].
    rewrite length_app. simpl. lia.
  - cbn [step size_step].
    destruct (delete_image_stored st image_id) as (_ & Hsize & _).
    destruct (delete_image st image_id) as [r st'] eqn:E.
    cbn [fst snd] in *. rewrite Hsize. destruct (stored st image_id); lia.
  - cbn [step size_step]. unfold toggle_favorite.
    destruct (list_find (has_id image_id) (gallery st)) as [[index g]|];
      [|done].
    cbn [fst snd gallery_size gallery]. by rewrite length_insert.
Qed.

Lemma run_expected_size ops st :
  (gallery_size (run st ops).2).1 = expected_size st (gallery_size st).1 ops.
Proof.
  revert st. induction ops as [|o later IH]; intros st; [done|].
  rewrite run_cons. cbn [snd expected_size].
  by rewrite IH, step_expected_size.
Qed.

(** C5, as the code has it: over every sequence of calls on a new store, the
    lifetime counter is the number of [add_image] calls, neither
    [delete_image] nor [clear_gallery] changes it, and [gallery_size]
    is the number of [add_image] calls minus the number of
    [delete_image] calls made on an id that was stored at the time,
    counted since the last [clear_gallery], which resets it to zero.
    A [delete_image] returns [True] exactly when the id is stored, in
    which case the size goes down by one; otherwise it leaves the
    store as it is. The ids handed out by [add_image], each the
    timestamp followed by the counter, are pairwise distinct whatever
    the clock reads. *)
Theorem lifetime_counter_and_size (ops : list op) :
  let log := (run new_session ops).1 in
  let st := (run new_session ops).2 in
  total_generated st = adds log
  ∧ (gallery_size st).1 = expected_size new_session 0 ops
  ∧ (∀ s image_id,
       (delete_image s image_id).1
       = bool_decide (image_id ∈ id <$> gallery s)
       ∧ (gallery_size (delete_image s image_id).2).1
         = (gallery_size s).1
           - (if bool_decide (image_id ∈ id <$> gallery s) then 1 else 0)
       ∧ (image_id ∉ id <$> gallery s → (delete_image s image_id).2 = s))
  ∧ NoDup (added_ids log)
  ∧ Forall (λ i, ∃ now counter,
      i = "img_" +:+ strftime_compact now +:+ "_" +:+ Py.str counter
      ∧ 0 ≤ counter) (added_ids log)
  ∧ (∀ s image_id,
       total_generated (delete_image s image_id).2 = total_generated s)
  ∧ (∀ s, total_generated (clear_gallery s) = total_generated s
          ∧ (gallery_size (clear_gallery s)).1 = 0).
Proof.
  cbn zeta. destruct (run_bookkeeping ops new_session) as [Ht Hs].
  split_and!.
  - rewrite Ht. simpl. lia.
  - apply (run_expected_size ops new_session).
  - intros s image_id.
    destruct (delete_image_stored s image_id) as (Hr & Hsize & Hsame).
    split_and!; [done|done|].
    intros Hno. apply Hsame. unfold stored. by apply bool_decide_eq_false.
  - apply run_ids_nodup.
  - apply (run_ids_counters ops new_session).
  - intros s image_id. unfold delete_image.
    by destruct (list_find _ _) as [[??]|].
  - done.
Qed.

(** C7: [get_all_images] returns the records in the reverse of the
    stored order and leaves the store as it is; after adding X and
    then Y the result starts with Y, X and the stored list ends
    with X, Y. *)
Theorem get_all_images_newest_first (st : session_state)
    imgX promptX styleX parametersX seedX nowX nowX'
    imgY promptY styleY parametersY seedY nowY nowY' :
  let stX :=
    (add_image st imgX promptX styleX parametersX seedX nowX nowX').2 in
  let stY :=
    (add_image stX imgY promptY styleY parametersY seedY nowY nowY').2 in
  (∀ s, get_all_images s = (reverse (gallery s), s))
  ∧ ∃ X Y,
      (image X = imgX ∧ prompt X = promptX ∧ seed X = Some seedX)
      ∧ (image Y = imgY ∧ prompt Y = promptY ∧ seed Y = Some seedY)
      ∧ (get_all_images stY).1 = [Y; X] ++ reverse (gallery st)
      ∧ (get_all_images stY).2 = stY
      ∧ gallery (get_all_images stY).2 = gallery st ++ [X; Y].
Proof.
  cbn zeta. split; [done|].
  eexists _, _. split_and!; cycle 6.
  - simpl. rewrite !reverse_snoc. reflexivity.
  - reflexivity.
  - simpl. by rewrite <- app_assoc.
  - reflexivity.
  - reflexivity.
  - reflexivity.
  - reflexivity.
  - reflexivity.
  - reflexivity.
Qed.

(** On a new store the two records are all there is. *)
Example newest_first_on_new_store :
  let st :=
    (run new_session
       [AddImage Samples.picture "first" "Anime" ∅ None
          Samples.noon Samples.noon;
        AddImage Samples.picture "second" "Anime" ∅ (Some 7)
          Samples.noon Samples.noon]).2 in
  prompt <$> (get_all_images st).1 = ["second"; "first"]
  ∧ prompt <$> gallery (get_all_images st).2 = ["first"; "second"]
  ∧ id <$> gallery st
    = ["img_20250102_120000_0"; "img_20250102_120000_1"].
Proof. cbn zeta. split_and!; reflexivity. Qed.

(** C8: on an id that is in the store, [toggle_favorite] returns a
    boolean, a second call returns the opposite one and gives back
    the state the first call started from, and each call leaves
    every field but [favorite] of every record, the order of the
    records and the counter as they were. *)
Theorem toggle_favorite_twice (st : session_state) (image_id : string) :
  (∃ g, g ∈ gallery st ∧ id g = image_id) →
  ∃ b st1,
    toggle_favorite st image_id = (Some b, st1)
    ∧ toggle_favorite st1 image_id = (Some (negb b), st)
    ∧ Forall2 same_but_favorite (gallery st) (gallery st1)
    ∧ Forall2 same_but_favorite (gallery st1) (gallery st)
    ∧ total_generated st1 = total_generated st.
Proof.
  intros (g0 & Hin & Hid0).
  destruct (list_find_elem_of (has_id image_id) _ _ Hin Hid0)
    as [[index g] Hfind].
  pose proof (find_after_insert _ _ _ _ (negb (favorite g)) Hfind) as Hfind'.
  destruct (find_lt _ _ _ _ Hfind) as [Hl _].
  assert (Forall2 same_but_favorite (gallery st)
            (<[index := set_favorite (negb (favorite g)) g]> (gallery st)))
    as Hsame.
  { rewrite <- (list_insert_id _ _ _ Hl) at 1.
    apply Forall2_insert; [|done].
    apply Forall_Forall2_diag, Forall_forall.
    intros; apply same_but_favorite_refl. }
  eexists (negb (favorite g)), _. split_and!.
  - unfold toggle_favorite. rewrite Hfind. reflexivity.
  - unfold toggle_favorite. cbn [gallery]. rewrite Hfind'.
    cbn [favorite set_favorite total_generated].
    rewrite list_insert_insert_eq, !negb_involutive.
    destruct st as [l n]. cbn [gallery total_generated] in *.
    f_equal. f_equal.
    rewrite <- (list_insert_id _ _ _ Hl) at 2. f_equal.
    by destruct g.
  - done.
  - cbn [gallery].
    rewrite <- (list_insert_id _ _ _ Hl) at 2.
    apply Forall2_insert.
    + apply Forall_Forall2_diag, Forall_forall.
      intros; apply same_but_favorite_refl.
    + by destruct g.
  - done.
Qed.

(** C10: for an id no record has, [get_image] returns [None],
    [delete_image] returns [False] and [toggle_favorite] returns
    [None], and each of them leaves the record list and the counter
    exactly as they were. *)
Theorem missing_id_changes_nothing (st : session_state)
    (image_id : string) :
  (∀ g, g ∈ gallery st → id g ≠ image_id) →
  get_image st image_id = (None, st)
  ∧ delete_image st image_id = (false, st)
  ∧ toggle_favorite st image_id = (None, st).
Proof.
  intros Hno. unfold get_image, delete_image, toggle_favorite.
  rewrite (find_absent _ _ Hno), (filter_absent _ _ Hno). done.
Qed.

End Store.

Lemma toggle_favorite_twice_witness :
  (∃ g, g ∈ gallery Samples.one_image ∧ id g = Samples.one_image_id)
  ∧ ∃ b st1,
      toggle_favorite Samples.one_image Samples.one_image_id = (Some b, st1)
      ∧ toggle_favorite st1 Samples.one_image_id
        = (Some (negb b), Samples.one_image).
Proof.
  assert (∃ g, g ∈ gallery Samples.one_image ∧ id g = Samples.one_image_id)
    as Hin.
  { eexists. split; [apply list_elem_of_here|reflexivity]. }
  split; [exact Hin|].
  destruct (toggle_favorite_twice Samples.one_image Samples.one_image_id Hin)
    as (b & st1 & H1 & H2 & _).
  exists b, st1. split; [exact H1|exact H2].
Defined.

Lemma missing_id_changes_nothing_witness :
  (∀ g, g ∈ gallery Samples.one_image → id g ≠ "img_none")
  ∧ delete_image Samples.one_image "img_none" = (false, Samples.one_image).
Proof.
  assert (∀ g, g ∈ gallery Samples.one_image → id g ≠ "img_none") as Hno.
  { intros g Hg. apply list_elem_of_singleton in Hg. subst g. discriminate. }
  split; [exact Hno|].
  exact (proj1 (proj2
    (missing_id_changes_nothing Samples.one_image "img_none" Hno))).
Defined.

(** C5 as stated, every [delete_image] call counted: after one
    [add_image] and a [delete_image] of an id that is not stored, the
    size is 1 and not 1 - 1. *)
Lemma size_is_not_adds_minus_delete_calls :
  let ops :=
    [AddImage Samples.picture "a cat" "Anime" Samples.no_parameters None
       Samples.noon Samples.noon;
     DeleteImage "img_none"] in
  let st := (run (H := Samples.sample_pillow) new_session ops).2 in
  (gallery_size st).1 = 1
  ∧ adds (run (H := Samples.sample_pillow) new_session ops).1 = 1
  ∧ calls_balance ops = 1 - 1
  ∧ (gallery_size st).1 ≠ calls_balance ops.
Proof. split_and!; [reflexivity..|discriminate]. Qed.

(** The shape of the archive, for any list of records: the image
    members in the order of the records, named by position and prompt,
    then the manifest with one block per record in the same order. *)
Lemma write_images_names `{Pillow} index images file_format zip_file z :
  write_images index images file_format zip_file = Some z →
  member_name <$> z =
  (member_name <$> zip_file)
  ++ imap (λ i g, file_name_of (index + i) g file_format) images.
Proof.
  revert index zip_file.
  induction images as [|g later IH]; intros index zip_file E.
  - simpl in *. injection E as <-. by rewrite app_nil_r.
  - cbn [write_images] in E.
    destruct (Image_save (image g) file_format) as [bytes|]; [|done].
    rewrite (IH _ _ E), fmap_app, <- app_assoc, imap_cons.
    cbn [fmap list_fmap app member_name]. rewrite Nat.add_0_r.
    do 2 f_equal. apply imap_ext. intros i g' _. simpl. f_equal. lia.
Qed.

Lemma write_metadata_blocks index images metadata :
  write_metadata index images metadata =
  metadata +:+
  String.concat EmptyString
    (imap (λ i g, metadata_block (index + i) g) images).
Proof.
  revert index metadata.
  induction images as [|g later IH]; intros index metadata.
  - simpl. by rewrite PyFacts.app_Empty_r.
  - cbn [write_metadata]. rewrite IH, imap_cons, Nat.add_0_r.
    rewrite PyFacts.app_assoc_string. f_equal.
    assert (∀ b l, String.concat EmptyString (b :: l)
                   = b +:+ String.concat EmptyString l) as Hconcat.
    { intros b [|b' l]; simpl; [by rewrite PyFacts.app_Empty_r|done]. }
    rewrite Hconcat. f_equal. f_equal.
    apply imap_ext. intros i g' _. simpl. f_equal. lia.
Qed.

Lemma create_zip_shape `{Pillow} images file_format z :
  create_zip images file_format = Some z →
  ∃ files,
    z = files ++
        [mkMember "generation_info.txt"
           (metadata_header +:+
            String.concat EmptyString (imap metadata_block images))]
    ∧ member_name <$> files
      = imap (λ i g, file_name_of i g file_format) images.
Proof.
  unfold create_zip.
  destruct (write_images 0 images file_format []) as [files|] eqn:E; [|done].
  intros [= <-]. exists files. split.
  - by rewrite write_metadata_blocks.
  - by rewrite (write_images_names _ _ _ _ _ E).
Qed.

(** A record stored by [add_image] always has the key ["seed"], so the
    manifest prints its value, [None] included, and never the default
    of [dict.get]. *)
Lemma added_record_seed_text `{Pillow} st image prompt style parameters seed
    now_id now_created :
  ∃ g,
    last (gallery (add_image st image prompt style parameters seed
                     now_id now_created).2) = Some g
    ∧ seed_text g = match seed with
                    | None => "None"
                    | Some n => Py.str n
                    end.
Proof.
  eexists. split; [apply last_snoc|]. by destruct seed.
Qed.

(** C4, at a gallery record whose seed was left unspecified: the
    archive has the image and the manifest, and the manifest prints
    the seed as [None]; the marker [Not specified] does not occur in
    it. *)
Theorem create_zip_unspecified_seed :
  seed <$> gallery Samples.one_image = [Some None]
  ∧ ∃ manifest,
      create_zip (H := Samples.sample_pillow)
        (gallery Samples.one_image) "PNG"
      = Some [mkMember "01_a cat.png" "PNG:pixels";
              mkMember "generation_info.txt" manifest]
      ∧ Py.contains ("  Seed: None" +:+ Py.nl) manifest = true
      ∧ Py.contains "Not specified" manifest = false.
Proof.
  split; [reflexivity|]. eexists. split_and!; reflexivity.
Qed.

End GalleryFacts.

(** ** The thumbnail *)

Module ThumbnailFacts.
Import ImageObjects.

Lemma round_div_bounds n d :
  0 < d →
  2 * d * round_div n d ≤ 2 * n + d < 2 * d * round_div n d + 2 * d.
Proof.
  intros Hd. unfold round_div.
  pose proof (Z.div_mod (2 * n + d) (2 * d) ltac:(lia)) as Hdiv.
  pose proof (Z.mod_pos_bound (2 * n + d) (2 * d) ltac:(lia)) as Hmod.
  lia.
Qed.

(** The size rule: inside the box, not larger than the source, and
    either the size of the source or one side on the box and the
    other within half a pixel of the exact ratio. *)
Lemma thumbnail_size_fits w h bw bh :
  0 < w → 0 < h → 0 < bw → 0 < bh →
  let w' := (thumbnail_size (w, h) (bw, bh)).1 in
  let h' := (thumbnail_size (w, h) (bw, bh)).2 in
  (w' ≤ bw ∧ h' ≤ bh)
  ∧ (w' ≤ w ∧ h' ≤ h)
  ∧ ((w', h') = (w, h)
     ∨ (w' = bw ∧ 2 * Z.abs (h' * w - h * bw) ≤ w)
     ∨ (h' = bh ∧ 2 * Z.abs (w' * h - w * bh) ≤ h)).
Proof.
  intros Hw Hh Hbw Hbh. cbn zeta. unfold thumbnail_size.
  destruct (Z.leb_spec w bw) as [Hfw|Hfw];
    destruct (Z.leb_spec h bh) as [Hfh|Hfh]; cbn [andb];
    [cbn [fst snd]; split_and!; [lia|lia|lia|lia|by left]|..];
    (destruct (Z.leb_spec (bw * h) (bh * w)) as [Hside|Hside];
     cbn [fst snd];
     [pose proof (round_div_bounds (h * bw) w Hw) as Hq;
      set (q := round_div (h * bw) w) in *
     |pose proof (round_div_bounds (w * bh) h Hh) as Hq;
      set (q := round_div (w * bh) h) in *]).
  all: split_and!; try lia; try nia.
  all: try (right; left; split; [done|lia]).
  all: try (right; right; split; [done|lia]).
Qed.

Example thumbnail_size_samples :
  thumbnail_size (512, 384) (256, 256) = (256, 192)
  ∧ thumbnail_size (300, 500) (256, 256) = (154, 256)
  ∧ thumbnail_size (100, 80) (256, 256) = (100, 80)
  ∧ thumbnail_size (1000, 3) (256, 256) = (256, 1).
Proof. by vm_compute. Qed.

Section Thumbnail.
Variable resample : Image → Z * Z → string.
Variable save : Image → string → option string.

Let pillow : Pillow := spec_pillow resample save.

(** On objects and on contents [create_thumbnail] computes the same
    image; the object version says where it is. *)
Lemma create_thumbnail_objects `{Pillow} heap image content max_size :
  heap !! image = Some content →
  create_thumbnail image max_size heap
  = Some (length heap,
          heap ++ [ImageProcessor.create_thumbnail content max_size]).
Proof.
  intros Hc. unfold create_thumbnail, Image_copy. rewrite Hc. cbn.
  unfold Image_thumbnail_in_place.
  rewrite lookup_app_r, Nat.sub_diag by lia. cbn.
  rewrite insert_app_r_alt, Nat.sub_diag by lia. done.
Qed.

(** C9: [create_thumbnail] returns a new object whose width and height
    are within the box and within those of the source, and whose size
    is the source's or has one side on the box and the other within
    half a pixel of the source's ratio; the object passed in, and
    every other object there was, has the content it had. With the
    default box, as [add_image] calls it, the thumbnail stored is at
    most 256 by 256. *)
Theorem create_thumbnail_fits (heap : list Image) (image : nat)
    (content : Image) (max_size : Z * Z) :
  heap !! image = Some content →
  0 < (im_size content).1 → 0 < (im_size content).2 →
  0 < max_size.1 → 0 < max_size.2 →
  let '(w, h) := im_size content in
  let '(bw, bh) := max_size in
  ∃ thumbnail heap' result,
    create_thumbnail (H := pillow) image max_size heap
    = Some (thumbnail, heap')
    ∧ heap' !! thumbnail = Some result
    ∧ result = ImageProcessor.create_thumbnail (H := pillow) content max_size
    ∧ ((im_size result).1 ≤ bw ∧ (im_size result).2 ≤ bh)
    ∧ ((im_size result).1 ≤ w ∧ (im_size result).2 ≤ h)
    ∧ (im_size result = (w, h)
       ∨ ((im_size result).1 = bw
          ∧ 2 * Z.abs ((im_size result).2 * w - h * bw) ≤ w)
       ∨ ((im_size result).2 = bh
          ∧ 2 * Z.abs ((im_size result).1 * h - w * bh) ≤ h))
    ∧ im_mode result = im_mode content
    ∧ thumbnail ≠ image
    ∧ heap' !! image = Some content
    ∧ (∀ r c, heap !! r = Some c → heap' !! r = Some c)
    ∧ (∀ st prompt style parameters seed now_id now_created,
         ∃ g,
           last (GalleryManager.gallery
                   (GalleryManager.add_image (H := pillow) st content prompt
                      style parameters seed now_id now_created).2) = Some g
           ∧ GalleryManager.thumbnail g
             = ImageProcessor.create_thumbnail (H := pillow) content (256, 256)
           ∧ (im_size (GalleryManager.thumbnail g)).1 ≤ 256
           ∧ (im_size (GalleryManager.thumbnail g)).2 ≤ 256).
Proof.
  destruct content as [[w h] mode data], max_size as [bw bh].
  cbn [im_size fst snd]. intros Hc Hw Hh Hbw Hbh.
  pose proof (thumbnail_size_fits w h bw bh Hw Hh Hbw Hbh)
    as ([Hbw' Hbh'] & [Hw' Hh'] & Hratio). cbn zeta in Hratio.
  pose proof (thumbnail_size_fits w h 256 256 Hw Hh ltac:(lia) ltac:(lia))
    as ([Hdw Hdh] & _).
  pose proof (lookup_lt_Some _ _ _ Hc) as Hlt.
  eexists _, _, _. split; [by apply create_thumbnail_objects|].
  split; [by rewrite lookup_app_r, Nat.sub_diag by lia|].
  split; [done|].
  unfold ImageProcessor.create_thumbnail, ImageProcessor.copy.
  cbn [Image_thumbnail pillow spec_pillow Image_thumbnail_spec im_size im_mode].
  split_and!; try done.
  - destruct Hratio as [E|[E|E]]; [left|right; left|right; right]; try done.
    by destruct (thumbnail_size (w, h) (bw, bh)).
  - lia.
  - by rewrite lookup_app_l.
  - intros r c Hr. rewrite lookup_app_l; [done|by eapply lookup_lt_Some].
  - intros st prompt style parameters seed now_id now_created.
    eexists. split; [cbn; by rewrite last_snoc|].
    cbn [GalleryManager.thumbnail]. split; [done|].
    unfold ImageProcessor.create_thumbnail, ImageProcessor.copy.
    cbn [Image_thumbnail pillow spec_pillow Image_thumbnail_spec im_size].
    done.
Qed.

End Thumbnail.

Lemma create_thumbnail_fits_witness :
  [Samples.picture] !! 0%nat = Some Samples.picture
  ∧ ∃ heap' result,
      create_thumbnail
        (H := spec_pillow (λ im _, im_data im) (λ _ _, None))
        0 (256, 256) [Samples.picture] = Some (1%nat, heap')
      ∧ heap' !! 1%nat = Some result
      ∧ im_size result = (256, 256)
      ∧ heap' !! 0%nat = Some Samples.picture.
Proof.
  split; [reflexivity|].
  pose proof (create_thumbnail_fits (λ im _, im_data im) (λ _ _, None)
                [Samples.picture] 0 Samples.picture (256, 256)
                eq_refl eq_refl eq_refl eq_refl eq_refl) as Hfit.
  cbn beta iota zeta delta [Samples.picture im_size] in Hfit.
  destruct Hfit as (thumbnail & heap' & result & Hrun & Hresult & Hcontent
                    & _ & _ & _ & _ & _ & Hinput & _).
  exists heap', result.
  assert (thumbnail = 1%nat ∧ heap' = [Samples.picture; result]) as [-> ->].
  { vm_compute in Hrun. injection Hrun as <- <-.
    rewrite Hcontent. split; reflexivity. }
  split_and!; [exact Hrun|exact Hresult| |exact Hinput].
  rewrite Hcontent. reflexivity.
Defined.

End ThumbnailFacts.

(** ** The generation client *)

Module ClientFacts.
Import HfApiHandler.

Section Client.
Variable env : Env.
Variable a : gen_args.

Lemma reply_at_0 c h0 model rest :
  reply_at env c a h0 (model :: rest) 0 =
  Some (text_to_image env c h0 (request_for a model)).
Proof. unfold reply_at. simpl. by rewrite app_nil_r. Qed.

Lemma reply_at_S c h0 model rest i :
  reply_at env c a h0 (model :: rest) (S i) =
  reply_at env c a (h0 ++ [TextToImage (request_for a model)]) rest i.
Proof.
  unfold reply_at. simpl. destruct (rest !! i); [|done].
  by rewrite <- app_assoc.
Qed.

Lemma failed_over_S c h0 model rest i :
  failed_over env c a h0 (model :: rest) (S i) ↔
  failed_over env c a (h0 ++ [TextToImage (request_for a model)]) rest i.
Proof. unfold failed_over. by rewrite reply_at_S. Qed.

Example classify_503 : classify "503 Service Unavailable" = ServiceWarming.
Proof. reflexivity. Qed.

Example classify_loading_any_case :
  classify "Model xyz is currently LOADING" = ServiceWarming.
Proof. reflexivity. Qed.

Example classify_429 : classify "429 Too Many Requests" = RateLimited.
Proof. reflexivity. Qed.

Example classify_401 : classify "401 Client Error: Unauthorized" = AuthInvalid.
Proof. reflexivity. Qed.

Example classify_500 : classify "500 Internal Server Error" = OtherFailure.
Proof. reflexivity. Qed.

(** The first test that matches wins. *)
Example classify_order : classify "401 after 429 during 503" = ServiceWarming.
Proof. reflexivity. Qed.

(** The loop over any list of candidates, from any history. [k] is
    the number of candidates the loop got to. *)
Lemma try_models_spec c models h0 :
  let res := (try_models env c a models h0).1 in
  let h1 := (try_models env c a models h0).2 in
  ∃ k : nat,
    (k ≤ length models)%nat
    ∧ h1 = h0 ++ attempts a (take k models)
    ∧ (∀ i, (S i < k)%nat → failed_over env c a h0 models i)
    ∧ ((∃ img,
          (0 < k)%nat
          ∧ reply_at env c a h0 models (k - 1) = Some (Returned img)
          ∧ res = (true, Some img, msg_success))
       ∨ (∃ error_msg,
            (0 < k)%nat
            ∧ reply_at env c a h0 models (k - 1) = Some (Raised error_msg)
            ∧ classify error_msg ≠ OtherFailure
            ∧ res = (false, None, failure_message (classify error_msg)))
       ∨ (k = length models
          ∧ (∀ i, (i < k)%nat → failed_over env c a h0 models i)
          ∧ res = (false, None, msg_all_failed))).
Proof.
  cbn zeta. revert h0.
  induction models as [|model rest IH]; intros h0.
  - exists 0%nat. simpl. split_and!; [lia|by rewrite app_nil_r|lia|].
    right; right. split_and!; [done|lia|done].
  - cbn [try_models]. unfold bind, call_text_to_image.
    pose proof (reply_at_0 c h0 model rest) as H0.
    destruct (text_to_image env c h0 (request_for a model))
      as [img|error_msg] eqn:Hreply.
    { exists 1%nat. simpl. split_and!; [lia|done|lia|].
      left. exists img. split_and!; [lia|done|done]. }
    destruct (is_loading error_msg) eqn:E1;
      [|destruct (is_rate_limited error_msg) eqn:E2;
        [|destruct (is_unauthorized error_msg) eqn:E3]].
    1-3: exists 1%nat; simpl; split_and!; [lia|done|lia|];
         right; left; exists error_msg; unfold classify;
         rewrite ?E1, ?E2, ?E3; by split_and!; [lia|..].
    destruct (IH (h0 ++ [TextToImage (request_for a model)]))
      as (k & Hk & Hh & Hbefore & Hend).
    assert (failed_over env c a h0 (model :: rest) 0) as Hfirst.
    { exists error_msg. split; [done|].
      unfold classify. by rewrite E1, E2, E3. }
    assert (∀ n i, (∀ j, (j < n)%nat →
               failed_over env c a
                 (h0 ++ [TextToImage (request_for a model)]) rest j) →
             (i < S n)%nat → failed_over env c a h0 (model :: rest) i)
      as Hshift.
    { intros n [|i] Hn Hi; [done|]. apply failed_over_S, Hn. lia. }
    exists (S k). simpl. split_and!.
    + lia.
    + rewrite Hh, <- app_assoc. done.
    + intros i Hi. apply (Hshift (k - 1)%nat); [|lia].
      intros j Hj. apply Hbefore. lia.
    + replace (k - 0)%nat with k by lia.
      destruct Hend as [(img & Hpos & Himg & Hres)
                       |[(e & Hpos & He & Hne & Hres)
                        |(Hlen & Hall & Hres)]].
      * left. exists img. split_and!; [lia| |done].
        destruct k as [|k]; [lia|].
        rewrite reply_at_S. by replace (S k - 1)%nat with k in Himg by lia.
      * right; left. exists e. split_and!; [lia| |done|done].
        destruct k as [|k]; [lia|].
        rewrite reply_at_S. by replace (S k - 1)%nat with k in He by lia.
      * right; right. split_and!; [lia| |done].
        intros i Hi. by apply (Hshift k).
Qed.

Lemma attempts_requests models :
  attempts a models = TextToImage <$> (request_for a <$> models).
Proof. unfold attempts. by rewrite <- list_fmap_compose. Qed.

(** The answer to the request number [i] of a call, read off the
    requests the call made. *)
Lemma reply_at_request c h0 models k i r :
  (k ≤ length models)%nat → (i < k)%nat →
  (request_for a <$> take k models) !! i = Some r →
  reply_at env c a h0 models i
  = Some (text_to_image env c
            (h0 ++ (TextToImage <$> take i (request_for a <$> take k models)))
            r).
Proof.
  intros Hk Hi Hr. unfold reply_at.
  rewrite list_lookup_fmap, lookup_take_lt in Hr by done.
  destruct (models !! i) as [model|]; [|done]. injection Hr as <-.
  rewrite attempts_requests, <- fmap_take, take_take.
  by replace (i `min` k)%nat with i by lia.
Qed.

(** C1: when [generate_image] reaches the loop, the requests it sends
    name, one after the other, the first candidates of
    [DEFAULT_MODEL :: ALTERNATIVE_MODELS], in that order, each with the
    caller's arguments. Every request before the last one was answered
    by an unclassified failure. The last one was answered by an image,
    and the call returns it; or by a failure classified as service
    warming, rate limited or invalid credential, and the call returns
    that error although candidates may be left; or by an unclassified
    failure of the last candidate, and the call returns the
    all-models-failed message. That message is returned only when every
    candidate was tried and failed unclassified. The classes are those
    of the three tests of the code, first match first. *)
Theorem generate_image_fallback (seed : option Z) (c : client)
    (h0 : list event) :
  get_client env = Some c →
  let models := DEFAULT_MODEL :: ALTERNATIVE_MODELS env in
  let res := (generate_image env a seed h0).1 in
  let h1 := (generate_image env a seed h0).2 in
  let reply reqs i r :=
    text_to_image env c (h0 ++ (TextToImage <$> take i reqs)) r in
  ∃ reqs : list request,
    h1 = h0 ++ (TextToImage <$> reqs)
    ∧ (1 ≤ length reqs ≤ length models)%nat
    ∧ rq_model <$> reqs = take (length reqs) models
    ∧ Forall (λ r,
        rq_prompt r = prompt a
        ∧ rq_negative_prompt r
          = (if String.eqb (negative_prompt a) EmptyString then None
             else Some (negative_prompt a))
        ∧ rq_width r = width a
        ∧ rq_height r = height a
        ∧ rq_num_inference_steps r = num_steps a
        ∧ rq_guidance_scale r = guidance_scale a) reqs
    ∧ (∀ i r, reqs !! i = Some r → (S i < length reqs)%nat →
         ∃ error_msg,
           reply reqs i r = Raised error_msg
           ∧ classify error_msg = OtherFailure)
    ∧ (∃ r,
         last reqs = Some r
         ∧ ((∃ img,
               reply reqs (length reqs - 1)%nat r = Returned img
               ∧ res = (true, Some img, "Image generated successfully!"))
            ∨ (∃ error_msg,
                 reply reqs (length reqs - 1)%nat r = Raised error_msg
                 ∧ classify error_msg = ServiceWarming
                 ∧ res = (false, None,
                          "Model is loading... Please wait 30 seconds and try again."))
            ∨ (∃ error_msg,
                 reply reqs (length reqs - 1)%nat r = Raised error_msg
                 ∧ classify error_msg = RateLimited
                 ∧ res = (false, None,
                          "Too many requests! Wait 1 minute and try again."))
            ∨ (∃ error_msg,
                 reply reqs (length reqs - 1)%nat r = Raised error_msg
                 ∧ classify error_msg = AuthInvalid
                 ∧ res = (false, None,
                          "API key is invalid! Get a new token from Hugging Face."))
            ∨ (∃ error_msg,
                 reply reqs (length reqs - 1)%nat r = Raised error_msg
                 ∧ classify error_msg = OtherFailure
                 ∧ length reqs = length models
                 ∧ res = (false, None,
                          "Could not generate image. Please try again later."))))
    ∧ (res.2 = "Could not generate image. Please try again later." →
       length reqs = length models
       ∧ ∀ i r, reqs !! i = Some r →
           ∃ error_msg,
             reply reqs i r = Raised error_msg
             ∧ classify error_msg = OtherFailure)
    ∧ (∀ error_msg,
         classify error_msg
         = if Py.contains "loading" (Py.lower error_msg)
              || Py.contains "503" error_msg
           then ServiceWarming
           else if Py.contains "429" error_msg
                   || Py.contains "rate" (Py.lower error_msg)
           then RateLimited
           else if Py.contains "401" error_msg
                   || Py.contains "unauthorized" (Py.lower error_msg)
           then AuthInvalid
           else OtherFailure).
Proof.
  intros Hc. cbn zeta. unfold generate_image. rewrite Hc.
  change (models_to_try env) with (DEFAULT_MODEL :: ALTERNATIVE_MODELS env).
  set (models := DEFAULT_MODEL :: ALTERNATIVE_MODELS env).
  destruct (try_models_spec c models h0) as (k & Hk & Hh & Hbefore & Hend).
  assert (1 ≤ k)%nat as Hpos.
  { destruct Hend as [(?&?&_)|[(?&?&_)|(->&_)]]; simpl; lia. }
  set (reqs := request_for a <$> take k models).
  assert (length reqs = k) as Hlen.
  { unfold reqs. rewrite length_fmap, length_take. lia. }
  assert (∀ i r, reqs !! i = Some r → (i < k)%nat →
            reply_at env c a h0 models i
            = Some (text_to_image env c
                      (h0 ++ (TextToImage <$> take i reqs)) r)) as Hreply.
  { intros i r Hr Hi. by apply reply_at_request. }
  assert (∀ i r, reqs !! i = Some r →
            failed_over env c a h0 models i →
            ∃ error_msg,
              text_to_image env c (h0 ++ (TextToImage <$> take i reqs)) r
              = Raised error_msg
              ∧ classify error_msg = OtherFailure) as Hfailed.
  { intros i r Hr (error_msg & Hat & Hclass).
    rewrite (Hreply i r Hr) in Hat
      by (apply lookup_lt_Some in Hr; lia).
    injection Hat as Hat. by exists error_msg. }
  destruct (reqs !! (k - 1)%nat) as [r_last|] eqn:Hlast.
  2: { apply lookup_ge_None in Hlast. lia. }
  exists reqs. rewrite Hlen. split_and!.
  - by rewrite Hh, attempts_requests.
  - lia.
  - lia.
  - unfold reqs. rewrite <- list_fmap_compose.
    rewrite (list_fmap_ext _ id (take k models)); [|done].
    apply list_fmap_id.
  - apply Forall_fmap, Forall_forall. intros model _. simpl.
    split_and!; try done. by destruct (negative_prompt a).
  - intros i r Hr Hi. apply (Hfailed i r Hr), Hbefore, Hi.
  - exists r_last. split.
    { rewrite last_lookup, Hlen. by replace (pred k) with (k - 1)%nat by lia. }
    pose proof (Hreply _ _ Hlast ltac:(lia)) as Hat.
    destruct Hend as [(img & _ & Himg & Hres)
                     |[(e & _ & He & Hne & Hres)|(Hall & Hfail & Hres)]].
    + left. exists img. split; [congruence|done].
    + rewrite He in Hat. injection Hat as Hat.
      destruct (classify e) eqn:Hclass; [| | |done].
      * right; left. by exists e.
      * right; right; left. by exists e.
      * right; right; right; left. by exists e.
    + destruct (Hfailed _ _ Hlast (Hfail (k - 1)%nat ltac:(lia))) as (e & He & Hclass).
      right; right; right; right. by exists e.
  - intros Hmsg.
    destruct Hend as [(img&_&_&Hres)|[(e&_&_&Hne&Hres)|(Hall&Hfail&_)]];
      [| |]; try (rewrite Hres in Hmsg; simpl in Hmsg).
    + discriminate.
    + destruct (classify e); try done; discriminate.
    + split; [done|]. intros i r Hr. apply (Hfailed i r Hr), Hfail.
      apply lookup_lt_Some in Hr. lia.
  - done.
Qed.

(** No request carries a seed: [generate_image] does not pass its
    [seed] argument on. *)
Lemma try_models_no_seed c models h0 :
  Forall carries_no_seed h0 →
  Forall carries_no_seed (try_models env c a models h0).2.
Proof.
  intros H0. destruct (try_models_spec c models h0) as (k & _ & -> & _).
  apply Forall_app. split; [done|].
  unfold attempts. apply Forall_fmap, Forall_forall. by intros.
Qed.

Lemma generate_image_no_seed seed h0 :
  Forall carries_no_seed h0 →
  Forall carries_no_seed (generate_image env a seed h0).2.
Proof.
  intros H0. unfold generate_image.
  destruct (get_client env); [by apply try_models_no_seed|done].
Qed.

Lemma batch_loop_no_seed base_seed count indices successes errors h0 :
  Forall carries_no_seed h0 →
  Forall carries_no_seed
    (batch_loop env a base_seed count indices successes errors h0).2.
Proof.
  revert successes errors h0.
  induction indices as [|i later IH]; intros successes errors h0 H0;
    [done|].
  cbn [batch_loop]. unfold bind at 1.
  pose proof (generate_image_no_seed (Some (base_seed + i)) h0 H0) as H1.
  destruct (generate_image _ _ _ _) as [[[success image] message] h1].
  unfold bind. destruct (i <? count - 1); simpl; apply IH; [|done].
  apply Forall_app. split; [done|]. by repeat constructor.
Qed.

(** The two lists are the attempts, split by success. *)
Lemma batch_loop_spec base_seed count indices successes errors h0 :
  (batch_loop env a base_seed count indices successes errors h0).1 =
  (successes ++
     omap (success_of base_seed)
          (attempt_results env a base_seed count indices h0),
   errors ++
     omap error_of (attempt_results env a base_seed count indices h0)).
Proof.
  revert successes errors h0.
  induction indices as [|i later IH]; intros successes errors h0.
  - simpl. by rewrite !app_nil_r.
  - cbn [batch_loop attempt_results]. unfold bind at 1.
    destruct (generate_image _ _ _ _) as [[[success image] message] h1].
    unfold bind.
    destruct ((if i <? count - 1 then sleep 3 else ret ()) h1) as [[] h2].
    rewrite IH. destruct success; simpl; by rewrite <- ?app_assoc.
Qed.

Lemma attempt_results_indices base_seed count indices h0 :
  (attempt_results env a base_seed count indices h0).*1 = indices.
Proof.
  revert h0. induction indices as [|i later IH]; intros h0; [done|].
  cbn [attempt_results].
  destruct (generate_image _ _ _ _) as [r h1].
  destruct ((if i <? count - 1 then sleep 3 else ret ()) h1) as [[] h2].
  simpl. by rewrite IH.
Qed.

Lemma attempt_results_run base_seed count indices h0 :
  Forall (λ o, ∃ h, o.2 = (generate_image env a (Some (base_seed + o.1)) h).1)
         (attempt_results env a base_seed count indices h0).
Proof.
  revert h0. induction indices as [|i later IH]; intros h0; [done|].
  cbn [attempt_results].
  destruct (generate_image _ _ _ _) as [r h1] eqn:E.
  destruct ((if i <? count - 1 then sleep 3 else ret ()) h1) as [[] h2].
  constructor; [|apply IH]. exists h0. simpl. by rewrite E.
Qed.

Lemma split_by_success_length base_seed (l : list (Z * result)) :
  (length (omap (success_of base_seed) l) + length (omap error_of l)
   = length l)%nat.
Proof.
  induction l as [|[i [[[] image] message]] l IH]; [done|..];
    cbn [omap list_omap success_of error_of length]; lia.
Qed.

Lemma range_length n : Z.of_nat (length (Py.range n)) = Z.max 0 n.
Proof. unfold Py.range. rewrite length_fmap, length_seq. lia. Qed.

(** C3: for a count [n ≥ 0] the batch returns two lists whose
    lengths add up to [n]. There is one attempt for each index
    [0 .. n-1], in order, each made by [generate_image] with seed
    [base + i]; a successful attempt adds its image and seed to the
    first list and nothing to the second, a failed attempt [i] adds
    the message ["Image i+1: ..."] to the second list and nothing to
    the first, both lists in the order of the attempts. The loop
    runs through all indices whatever the attempts return. *)
Theorem generate_multiple_images_accounts (count time_now : Z)
    (h0 : list event) :
  0 ≤ count →
  let successes := (generate_multiple_images env a count time_now h0).1.1 in
  let errors := (generate_multiple_images env a count time_now h0).1.2 in
  Z.of_nat (length successes + length errors) = count
  ∧ ∃ outcomes : list (Z * result),
      outcomes.*1 = Z.of_nat <$> seq 0 (Z.to_nat count)
      ∧ Forall (λ o, ∃ h,
          o.2 = (generate_image env a (Some (time_now + o.1)) h).1)
          outcomes
      ∧ successes = omap (success_of time_now) outcomes
      ∧ errors = omap error_of outcomes
      ∧ Forall (λ o : Z * (bool * option Image * string),
          let i := o.1 in
          let success := o.2.1.1 in
          let image := o.2.1.2 in
          let message := o.2.2 in
          if success
          then success_of time_now o = Some (mkEntry image (time_now + i))
               ∧ error_of o = None
          else success_of time_now o = None
               ∧ error_of o
                 = Some ("Image " +:+ Py.str (i + 1) +:+ ": " +:+ message))
          outcomes.
Proof.
  intros Hcount. cbn zeta. unfold generate_multiple_images.
  rewrite batch_loop_spec. cbn [fst snd app].
  split.
  - rewrite split_by_success_length.
    rewrite <- (length_fmap fst), attempt_results_indices, range_length.
    lia.
  - eexists. split_and!; [|apply attempt_results_run|done|done|].
    + apply attempt_results_indices.
    + apply Forall_forall. by intros [i [[[] image] message]] _.
Qed.

(** The connection test never touches the endpoint. *)
Lemma test_api_connection_pure h :
  (test_api_connection env h).2 = h.
Proof.
  unfold test_api_connection.
  destruct (HUGGINGFACE_API_KEY env) as [[|ch key]|]; simpl; try done.
  destruct (negb _); [done|].
  by destruct (InferenceClient_raises env _).
Qed.

(** C6, as the code has it: the connection test issues no request;
    it reports a missing key when the key is absent or empty and a
    malformed key when the key does not start with [hf_]; for a key
    with the prefix it then constructs the client, and reports ready
    when the constructor returns and a connection error with the
    text of the exception when it raises. *)
Theorem test_api_connection_checks (h : list event) :
  (test_api_connection env h).2 = h
  ∧ (Py.truthy (HUGGINGFACE_API_KEY env) = false →
     (test_api_connection env h).1 = (false, msg_key_missing))
  ∧ (∀ key,
       HUGGINGFACE_API_KEY env = Some key → key ≠ EmptyString →
       (Py.startswith key "hf_" = false →
        (test_api_connection env h).1 = (false, msg_key_format))
       ∧ (Py.startswith key "hf_" = true →
          InferenceClient_raises env key = None →
          (test_api_connection env h).1 = (true, msg_ready))
       ∧ (Py.startswith key "hf_" = true →
          ∀ e, InferenceClient_raises env key = Some e →
            (test_api_connection env h).1 =
            (false, "API connection error: " +:+ e))).
Proof.
  split_and!.
  - apply test_api_connection_pure.
  - unfold test_api_connection. by intros ->.
  - intros key Hkey Hne. unfold test_api_connection. rewrite Hkey.
    destruct key as [|ch key]; [done|]. cbn [Py.truthy negb].
    split_and!.
    + by intros ->.
    + intros -> ->. done.
    + intros -> e ->. done.
Qed.

End Client.

Lemma generate_image_fallback_witness :
  get_client Samples.warming_alternate = Some (mkClient "hf_abc")
  ∧ ∃ reqs : list request,
      (generate_image Samples.warming_alternate Samples.cat None []).2
      = TextToImage <$> reqs
      ∧ rq_model <$> reqs
        = take (length reqs)
            (DEFAULT_MODEL :: ALTERNATIVE_MODELS Samples.warming_alternate).
Proof.
  split; [reflexivity|].
  destruct (generate_image_fallback Samples.warming_alternate Samples.cat
              None (mkClient "hf_abc") [] eq_refl)
    as (reqs & Hh & _ & Hmodels & _).
  exists reqs. split; [exact Hh|exact Hmodels].
Defined.

Lemma generate_multiple_images_accounts_witness :
  0 ≤ 3
  ∧ let r :=
      (generate_multiple_images Samples.second_fails Samples.cat 3
         1700000000 []).1 in
    Z.of_nat (length r.1 + length r.2) = 3.
Proof.
  assert (0 ≤ 3) as Hcount by lia.
  split; [exact Hcount|].
  exact (proj1 (generate_multiple_images_accounts Samples.second_fails
                  Samples.cat 3 1700000000 [] Hcount)).
Defined.

Lemma test_api_connection_checks_witness :
  (test_api_connection Samples.broken_constructor []).2 = []
  ∧ (test_api_connection Samples.broken_constructor []).1
    = (false, "API connection error: boom").
Proof.
  pose proof (test_api_connection_checks Samples.broken_constructor [])
    as (Hpure & _ & Hkey).
  split; [exact Hpure|].
  destruct (Hkey "hf_abc" eq_refl ltac:(discriminate)) as (_ & _ & Hraise).
  exact (Hraise eq_refl "boom" eq_refl).
Defined.

(** With a key that has the prefix and a client constructor that
    raises, the connection test does not report what the key alone
    would give. *)
Lemma test_api_connection_not_by_key_alone :
  ¬ ((test_api_connection Samples.broken_constructor []).1
     = connection_report_by_key
         (HUGGINGFACE_API_KEY Samples.broken_constructor)).
Proof. discriminate. Qed.

(** C2, at a batch of two on an endpoint that serves every request:
    the two entries record the seeds [base] and [base + 1], and the
    two requests sent are the same request, with no seed in it. *)
Theorem batch_seed_not_sent :
  let r :=
    generate_multiple_images Samples.healthy Samples.cat 2 1700000000 [] in
  be_seed <$> r.1.1 = [1700000000; 1700000001]
  ∧ r.1.2 = []
  ∧ r.2 = [TextToImage (request_for Samples.cat DEFAULT_MODEL);
           Sleep 3;
           TextToImage (request_for Samples.cat DEFAULT_MODEL)]
  ∧ rq_seed (request_for Samples.cat DEFAULT_MODEL) = None.
Proof. cbn zeta. split_and!; reflexivity. Qed.

(** The scenario of a batch of three whose second attempt fails on
    every candidate model. *)
Example batch_of_three_second_fails :
  let r :=
    (generate_multiple_images Samples.second_fails Samples.cat 3
       1700000000 []).1 in
  be_seed <$> r.1 = [1700000000; 1700000002]
  ∧ r.2 = ["Image 2: Could not generate image. Please try again later."].
Proof. cbn zeta. split; reflexivity. Qed.

End ClientFacts.


(** ** More on the gallery store *)

Module GalleryExtra.
Import GalleryManager.

Section Store.
Context `{Pillow}.

(** Where the search loop of [delete_image] and [toggle_favorite]
    stops. *)
Lemma find_split (l : list image_data) image_id index g :
  list_find (has_id image_id) l = Some (index, g) →
  l = take index l ++ g :: drop (S index) l
  ∧ Forall (λ x, id x ≠ image_id) (take index l)
  ∧ id g = image_id
  ∧ length (take index l) = index.
Proof.
  intros (Hl & Hid & Hfirst)%list_find_Some. split_and!.
  - by rewrite take_drop_middle.
  - apply Forall_forall. intros x (j & Hj & Hlt)%elem_of_take.
    by apply (Hfirst j).
  - done.
  - apply length_take_le. apply lookup_lt_Some in Hl. lia.
Qed.

Lemma step_well_numbered st o :
  well_numbered st → well_numbered (step st o).2.
Proof.
  intros (Hpos & Hnodup & Hall). unfold well_numbered.
  destruct o; simpl; try done.
  - (* add_image *)
    split_and!; [lia| |].
    + rewrite fmap_app. apply NoDup_app. split_and!; [done| |].
      * intros x (g & -> & Hg)%list_elem_of_fmap.
        rewrite Forall_forall in Hall.
        destruct (Hall _ Hg) as (t & c & E & Hc). rewrite E.
        intros Hin%list_elem_of_singleton.
        apply GalleryFacts.image_id_of_inj in Hin. lia.
      * apply NoDup_singleton.
    + apply Forall_app. split.
      * eapply Forall_impl; [done|]. intros g (t & c & E & Hc).
        exists t, c. split; [done|lia].
      * constructor; [|constructor]. eexists _, _. split; [done|lia].
  - (* delete_image *)
    unfold delete_image.
    destruct (list_find _ _) as [[index g]|]; simpl; [|done].
    split_and!; [done| |by apply Forall_delete].
    rewrite list_fmap_delete. eapply sublist_NoDup; [done|].
    apply sublist_delete.
  - (* toggle_favorite *)
    unfold toggle_favorite.
    destruct (list_find _ _) as [[index g]|] eqn:E; simpl; [|done].
    apply GalleryFacts.find_lt in E as [Hl _].
    split_and!; [done| |].
    + rewrite list_fmap_insert. simpl.
      rewrite list_insert_id; [done|]. by rewrite list_lookup_fmap, Hl.
    + apply Forall_insert; [done|]. rewrite Forall_forall in Hall.
      apply (Hall g). by eapply list_elem_of_lookup_2.
  - (* clear_gallery *)
    split_and!; [done|constructor|constructor].
Qed.

Lemma run_well_numbered ops st :
  well_numbered st → well_numbered (run st ops).2.
Proof.
  revert st. induction ops as [|o later IH]; intros st Hst; [done|].
  rewrite GalleryFacts.run_cons. simpl. by apply IH, step_well_numbered.
Qed.

(** In every store reached from a new one, the ids of the stored
    records are pairwise distinct, each carries a counter value below
    the lifetime counter, and the lifetime counter is not negative. *)
Theorem stored_ids_distinct (ops : list op) :
  let st := (run new_session ops).2 in
  NoDup (id <$> gallery st)
  ∧ Forall (λ g, ∃ now counter,
      id g = "img_" +:+ strftime_compact now +:+ "_" +:+ Py.str counter
      ∧ 0 ≤ counter < total_generated st) (gallery st)
  ∧ 0 ≤ total_generated st.
Proof.
  cbn zeta.
  destruct (run_well_numbered ops new_session) as (Hpos & Hnodup & Hall).
  { split_and!; [done|constructor|constructor]. }
  done.
Qed.

(** The store never holds more records than were ever added. *)
Theorem size_at_most_lifetime_counter (ops : list op) :
  let st := (run new_session ops).2 in
  0 ≤ (gallery_size st).1 ≤ total_generated st.
Proof.
  cbn zeta.
  assert (∀ ops st,
            Z.of_nat (length (gallery st)) ≤ total_generated st →
            Z.of_nat (length (gallery (run st ops).2))
            ≤ total_generated (run st ops).2) as Hrun.
  { clear ops. induction ops as [|o later IH]; intros st Hst; [done|].
    rewrite GalleryFacts.run_cons. cbn [snd]. apply IH.
    rewrite GalleryFacts.step_total, GalleryFacts.step_size.
    destruct o; simpl; try lia.
    unfold delete_image. destruct (list_find _ _) as [[??]|]; simpl; lia. }
  specialize (Hrun ops new_session). simpl in *. lia.
Qed.

(** The id [add_image] returns finds the record just stored, with the
    image, prompt, style, seed and creation time that were passed and
    not marked as favourite; and every id that found a record before
    still finds the same record. *)
Theorem get_image_after_add_image (ops : list op)
    image prompt style parameters seed now_id now_created :
  let st := (run new_session ops).2 in
  let r :=
    add_image st image prompt style parameters seed now_id now_created in
  (∃ g,
     (get_image r.2 r.1).1 = Some g
     ∧ id g = r.1
     ∧ GalleryManager.image g = image
     ∧ GalleryManager.prompt g = prompt
     ∧ GalleryManager.style g = style
     ∧ GalleryManager.parameters g = parameters
     ∧ GalleryManager.seed g = Some seed
     ∧ created_at g = now_created
     ∧ favorite g = false)
  ∧ (∀ j g', (get_image st j).1 = Some g' → (get_image r.2 j).1 = Some g').
Proof.
  cbn zeta.
  destruct (run_well_numbered ops new_session) as (Hpos & Hnodup & Hall).
  { split_and!; [done|constructor|constructor]. }
  set (st := (run new_session ops).2) in *.
  split.
  - eexists. split.
    { unfold get_image, add_image. cbn [fst snd gallery].
      rewrite filter_app, GalleryFacts.filter_absent.
      - simpl. by rewrite filter_cons_True.
      - intros g Hg. rewrite Forall_forall in Hall.
        destruct (Hall _ Hg) as (t & c & E & Hc). rewrite E.
        intros Hin%GalleryFacts.image_id_of_inj. lia. }
    by split_and!.
  - intros j g'. unfold get_image, add_image. cbn [fst snd gallery].
    rewrite filter_app, head_app. by intros ->.
Qed.

(** [delete_image] on an id that is in the store returns [True] and
    removes the first record with that id and nothing else: the records
    before it and after it stay, in their order, and the lifetime
    counter is unchanged. *)
Theorem delete_image_removes_first_match (st : session_state)
    (image_id : string) :
  (∃ g, g ∈ gallery st ∧ id g = image_id) →
  ∃ before g after,
    gallery st = before ++ g :: after
    ∧ id g = image_id
    ∧ Forall (λ x, id x ≠ image_id) before
    ∧ delete_image st image_id
      = (true, {| gallery := before ++ after;
                  total_generated := total_generated st |}).
Proof.
  intros (g0 & Hin & Hid0).
  destruct (list_find_elem_of (has_id image_id) _ _ Hin Hid0)
    as [[index g] Hfind].
  destruct (find_split _ _ _ _ Hfind) as (Hsplit & Hbefore & Hid & _).
  exists (take index (gallery st)), g, (drop (S index) (gallery st)).
  split_and!; [done|done|done|].
  unfold delete_image. by rewrite Hfind, delete_take_drop.
Qed.

Lemma absent_after_delete (st : session_state) (image_id : string) :
  NoDup (id <$> gallery st) →
  ∀ g, g ∈ gallery (delete_image st image_id).2 → id g ≠ image_id.
Proof.
  intros Hnodup. unfold delete_image.
  destruct (list_find _ _) as [[index g]|] eqn:Hfind; cbn [snd gallery].
  - destruct (find_split _ _ _ _ Hfind) as (Hsplit & Hbefore & Hid & _).
    rewrite Hsplit, fmap_app, fmap_cons in Hnodup.
    apply NoDup_app in Hnodup as (_ & _ & Hnodup).
    apply NoDup_cons in Hnodup as (Hnotin & _).
    rewrite delete_take_drop. intros x [Hx|Hx]%elem_of_app.
    + rewrite Forall_forall in Hbefore. by apply Hbefore.
    + intros Hidx. apply Hnotin. rewrite Hid, <- Hidx.
      by apply list_elem_of_fmap_2.
  - apply list_find_None in Hfind. rewrite Forall_forall in Hfind.
    intros x Hx. by apply Hfind.
Qed.

(** In every store reached from a new one, an id is gone once
    [delete_image] has been called on it: [get_image] then returns
    [None], a second [delete_image] returns [False] and
    [toggle_favorite] returns [None]. *)
Theorem deleted_id_is_gone (ops : list op) (image_id : string) :
  let st := (run new_session ops).2 in
  let st' := (delete_image st image_id).2 in
  (get_image st' image_id).1 = None
  ∧ delete_image st' image_id = (false, st')
  ∧ toggle_favorite st' image_id = (None, st').
Proof.
  cbn zeta.
  destruct (run_well_numbered ops new_session) as (_ & Hnodup & _).
  { split_and!; [done|constructor|constructor]. }
  pose proof (absent_after_delete _ image_id Hnodup) as Hgone.
  set (st' := (delete_image _ image_id).2) in *.
  unfold get_image, delete_image, toggle_favorite.
  rewrite (GalleryFacts.find_absent _ _ Hgone).
  by rewrite (GalleryFacts.filter_absent _ _ Hgone).
Qed.

(** In every store reached from a new one, after [toggle_favorite]
    returned a boolean for an id, that id is among the favourites
    exactly when the boolean is [True], and the records with other ids
    are among the favourites exactly as before. *)
Theorem favourites_follow_toggle (ops : list op) (image_id : string) :
  let st := (run new_session ops).2 in
  let r := toggle_favorite st image_id in
  match r.1 with
  | Some b =>
      (b = true ↔ ∃ g, g ∈ (get_favorites r.2).1 ∧ id g = image_id)
      ∧ (∀ g, id g ≠ image_id →
           g ∈ (get_favorites r.2).1 ↔ g ∈ (get_favorites st).1)
  | None => r.2 = st ∧ ∀ g, g ∈ gallery st → id g ≠ image_id
  end.
Proof.
  cbn zeta.
  destruct (run_well_numbered ops new_session) as (_ & Hnodup & _).
  { split_and!; [done|constructor|constructor]. }
  set (st := (run new_session ops).2) in *.
  unfold toggle_favorite, get_favorites.
  destruct (list_find _ _) as [[index g]|] eqn:Hfind; cbn [fst snd gallery].
  - destruct (find_split _ _ _ _ Hfind) as (Hsplit & Hbefore & Hid & Hlen).
    apply GalleryFacts.find_lt in Hfind as [Hl _].
    rewrite (insert_take_drop _ _ _ (lookup_lt_Some _ _ _ Hl)).
    assert (∀ x, x ∈ gallery st ↔
                 x ∈ take index (gallery st) ∨ x = g
                 ∨ x ∈ drop (S index) (gallery st)) as Hmem.
    { intros x. rewrite Hsplit at 1. by rewrite elem_of_app, elem_of_cons. }
    assert (∀ x, x ∈ take index (gallery st)
                 ∨ x ∈ drop (S index) (gallery st) → id x ≠ image_id)
      as Hothers.
    { rewrite Hsplit, fmap_app, fmap_cons in Hnodup.
      apply NoDup_app in Hnodup as (_ & _ & Hnodup).
      apply NoDup_cons in Hnodup as (Hnotin & _).
      intros x [Hx|Hx].
      - rewrite Forall_forall in Hbefore. by apply Hbefore.
      - intros Hidx. apply Hnotin. rewrite Hid, <- Hidx.
        by apply list_elem_of_fmap_2. }
    split.
    + split.
      * intros Hb. exists (set_favorite (negb (favorite g)) g).
        split; [|exact Hid].
        apply list_elem_of_filter. split; [exact Hb|].
        apply elem_of_app. right. by left.
      * intros (x & (Hfav & Hx)%list_elem_of_filter & Hidx).
        apply elem_of_app in Hx as [Hx|[->|Hx]%elem_of_cons]; [|done|].
        -- exfalso. apply (Hothers x); [by left|done].
        -- exfalso. apply (Hothers x); [by right|done].
    + intros x Hidx.
      rewrite !list_elem_of_filter, Hmem, elem_of_app, elem_of_cons.
      split; intros [Hfav [Hx|[->|Hx]]]; try by eauto.
  - split; [done|]. apply list_find_None in Hfind.
    rewrite Forall_forall in Hfind. intros x Hx. by apply Hfind.
Qed.

(** A record is never a favourite when it is added, and clearing the
    gallery empties the favourites: [get_favorites] returns after
    [add_image] what it returned before, and nothing after
    [clear_gallery]. *)
Theorem new_image_is_no_favourite (st : session_state)
    image prompt style parameters seed now_id now_created :
  (get_favorites
     (add_image st image prompt style parameters seed now_id now_created).2).1
  = (get_favorites st).1
  ∧ (get_favorites (clear_gallery st)).1 = [].
Proof.
  unfold get_favorites, add_image. cbn [fst snd gallery]. split; [|done].
  rewrite filter_app, filter_cons_False by done.
  by rewrite filter_nil, app_nil_r.
Qed.

(** [get_image] leaves the store as it is and returns the first record
    with the id, when there is one, and [None] exactly when no record
    has the id. *)
Theorem get_image_finds_first_match (st : session_state)
    (image_id : string) :
  (get_image st image_id).2 = st
  ∧ match (get_image st image_id).1 with
    | Some g =>
        ∃ before after,
          gallery st = before ++ g :: after
          ∧ id g = image_id
          ∧ Forall (λ x, id x ≠ image_id) before
    | None => ∀ g, g ∈ gallery st → id g ≠ image_id
    end.
Proof.
  split; [done|]. unfold get_image. cbn [fst].
  induction (gallery st) as [|g l IH]; [by intros g Hg%elem_of_nil|].
  destruct (decide (has_id image_id g)) as [Hg|Hg].
  - rewrite filter_cons_True by done. simpl. by exists [], l.
  - rewrite filter_cons_False by done.
    destruct (head (filter (has_id image_id) l)) as [g'|].
    + destruct IH as (before & after & -> & Hid & Hbefore).
      exists (g :: before), after. split_and!; [done|done|by constructor].
    + intros x [->|Hx]%elem_of_cons; [done|by apply IH].
Qed.

End Store.

Lemma get_image_after_add_image_witness :
  ∃ g,
    (get_image Samples.one_image Samples.one_image_id).1 = Some g
    ∧ (get_image
         (add_image (H := Samples.sample_pillow) Samples.one_image
            Samples.picture "a dog" "Sketch" Samples.no_parameters (Some 7)
            Samples.noon Samples.noon).2
         Samples.one_image_id).1 = Some g.
Proof.
  assert (∃ g, (get_image Samples.one_image Samples.one_image_id).1 = Some g)
    as [g Hg].
  { eexists. reflexivity. }
  exists g. split; [exact Hg|].
  exact (proj2 (get_image_after_add_image (H := Samples.sample_pillow)
                  [AddImage Samples.picture "a cat" "Anime"
                     Samples.no_parameters None Samples.noon Samples.noon]
                  Samples.picture "a dog" "Sketch" Samples.no_parameters
                  (Some 7) Samples.noon Samples.noon)
           Samples.one_image_id g Hg).
Defined.

Lemma favourites_follow_toggle_witness :
  ∃ g, g ∈ (get_favorites
              (toggle_favorite Samples.one_image Samples.one_image_id).2).1
       ∧ id g = Samples.one_image_id.
Proof.
  pose proof (favourites_follow_toggle (H := Samples.sample_pillow)
                [AddImage Samples.picture "a cat" "Anime"
                   Samples.no_parameters None Samples.noon Samples.noon]
                Samples.one_image_id) as Hf.
  apply (proj1 (proj1 Hf)). reflexivity.
Defined.

Lemma delete_image_removes_first_match_witness :
  (∃ g, g ∈ gallery Samples.one_image ∧ id g = Samples.one_image_id)
  ∧ (delete_image Samples.one_image Samples.one_image_id).1 = true.
Proof.
  assert (∃ g, g ∈ gallery Samples.one_image ∧ id g = Samples.one_image_id)
    as Hin.
  { eexists. split; [apply list_elem_of_here|reflexivity]. }
  split; [exact Hin|].
  destruct (delete_image_removes_first_match Samples.one_image
              Samples.one_image_id Hin) as (b & g & a & _ & _ & _ & E).
  rewrite E. reflexivity.
Defined.

End GalleryExtra.

(** ** More on strings and decimal numbers *)

Module PyExtra.
Import Py.

Lemma free_of_app c a b : free_of c a → free_of c b → free_of c (a +:+ b).
Proof.
  intros Ha Hb. induction a as [|d a IH];
    rewrite ?PyFacts.app_String, ?PyFacts.app_Empty; [done|].
  destruct Ha. split; auto.
Qed.

(** The text before the first occurrence of a separator is determined
    by the whole string, and so is the text after it. *)
Lemma first_field_inj c a b x y :
  free_of c a → free_of c b →
  a +:+ String c x = b +:+ String c y → a = b ∧ x = y.
Proof.
  revert b. induction a as [|d a IH]; intros [|e b] Ha Hb E;
    rewrite ?PyFacts.app_String, ?PyFacts.app_Empty in E.
  - by injection E.
  - injection E as <- _. by destruct Hb.
  - injection E as -> _. by destruct Ha.
  - injection E as -> E. destruct Ha, Hb.
    destruct (IH b) as [-> ->]; auto.
Qed.

Lemma zeros_S k : zeros (S k) = String "0" (zeros k).
Proof. by destruct k. Qed.

Lemma zfill_zeros w n :
  zfill w n = zeros (w - String.length (str n)) +:+ str n.
Proof. done. Qed.

Lemma zeros_free_of c k : c ≠ "0"%char → free_of c (zeros k).
Proof.
  intros Hc. induction k as [|k IH]; [done|].
  rewrite zeros_S. split; [congruence|done].
Qed.

Lemma zfill_free_of_underscore w n : free_of "_" (zfill w n).
Proof.
  rewrite zfill_zeros. apply free_of_app.
  - by apply zeros_free_of.
  - apply PyFacts.str_free_of_underscore.
Qed.

Lemma unorm_head d d' : Decimal.unorm d = Decimal.D0 d' → d' = Decimal.Nil.
Proof.
  induction d; simpl; intros E; try discriminate; auto.
  by injection E.
Qed.

Lemma to_uint_head p d : Pos.to_uint p ≠ Decimal.D0 d.
Proof.
  intros E.
  pose proof (Unsigned.to_of (Pos.to_uint p)) as Hnorm.
  rewrite Unsigned.of_to in Hnorm. simpl in Hnorm.
  rewrite E in Hnorm. rewrite DecimalFacts.unorm_D0 in Hnorm.
  symmetry in Hnorm. apply unorm_head in Hnorm. subst d.
  by apply Unsigned.to_uint_nonzero in E.
Qed.

(** The decimal text of a positive number starts with a digit other
    than zero. *)
Lemma str_head n :
  0 < n → ∃ d s, str n = String d s ∧ d ≠ "0"%char ∧ d ≠ "g"%char.
Proof.
  destruct n as [|p|p]; try lia. intros _. unfold str. simpl.
  pose proof (to_uint_head p) as Hhead.
  pose proof (Unsigned.to_uint_nonnil p) as Hnil.
  destruct (Pos.to_uint p) as [|d|d|d|d|d|d|d|d|d|d]; simpl;
    try done; try (by eexists _, _); by destruct (Hhead d).
Qed.

Lemma zeros_strip a b d s e t :
  d ≠ "0"%char → e ≠ "0"%char →
  zeros a +:+ String d s = zeros b +:+ String e t →
  String d s = String e t.
Proof.
  intros Hd He. revert b.
  induction a as [|a IH]; intros [|b];
    rewrite ?zeros_S, ?PyFacts.app_String; unfold zeros at 1; simpl;
    rewrite ?PyFacts.app_Empty; intros E.
  - done.
  - injection E as -> _. done.
  - injection E as <- _. done.
  - injection E as E. by apply (IH b).
Qed.

Lemma zfill_inj w n m : 0 < n → 0 < m → zfill w n = zfill w m → n = m.
Proof.
  intros Hn Hm E. rewrite !zfill_zeros in E.
  destruct (str_head n Hn) as (d & s & En & Hd & _).
  destruct (str_head m Hm) as (e & t & Em & He & _).
  rewrite En, Em in E. apply zeros_strip in E; [|done..].
  apply PyFacts.str_inj. congruence.
Qed.

Lemma zfill_head w n :
  0 < n → ∃ d s, zfill w n = String d s ∧ d ≠ "g"%char.
Proof.
  intros Hn. rewrite zfill_zeros.
  destruct (str_head n Hn) as (d & s & -> & _ & Hd).
  destruct (w - _)%nat as [|k].
  - by exists d, s.
  - rewrite zeros_S, PyFacts.app_String. by eexists _, _.
Qed.

Lemma take_nil n : take n EmptyString = EmptyString.
Proof. by destruct n. Qed.

Lemma take_cons n c s : take (S n) (String c s) = String c (take n s).
Proof. done. Qed.

Lemma take_0 s : take 0 s = EmptyString.
Proof. by destruct s. Qed.

Lemma take_length n s :
  String.length (take n s) = Nat.min n (String.length s).
Proof.
  revert s. induction n as [|n IH]; intros [|c s];
    rewrite ?take_nil, ?take_0, ?take_cons; simpl; auto.
Qed.

Lemma take_all n s : (String.length s ≤ n)%nat → take n s = s.
Proof.
  revert s. induction n as [|n IH]; intros [|c s] Hlen;
    rewrite ?take_nil, ?take_0, ?take_cons; simpl in *; try done; try lia.
  rewrite IH; [done|lia].
Qed.

Lemma take_free_of c n s : free_of c s → free_of c (take n s).
Proof.
  revert s. induction n as [|n IH]; intros [|d s] Hs;
    rewrite ?take_nil, ?take_0, ?take_cons; try done.
  destruct Hs. split; auto.
Qed.

Lemma remove_char_free c s : free_of c (remove_char c s).
Proof.
  induction s as [|d s IH]; simpl; [done|].
  destruct (Ascii.eqb c d) eqn:E; [done|]. split; [|done].
  intros ->. by rewrite Ascii.eqb_refl in E.
Qed.

Lemma remove_char_keeps_free c d s :
  free_of c s → free_of c (remove_char d s).
Proof.
  induction s as [|e s IH]; simpl; [done|]. intros [He Hs].
  destruct (Ascii.eqb d e); [auto|]. split; auto.
Qed.

Lemma remove_char_id c s : free_of c s → remove_char c s = s.
Proof.
  induction s as [|d s IH]; simpl; [done|]. intros [Hd Hs].
  destruct (Ascii.eqb c d) eqn:E.
  - apply Ascii.eqb_eq in E. congruence.
  - by rewrite IH.
Qed.

Lemma remove_char_length c s :
  (String.length (remove_char c s) ≤ String.length s)%nat.
Proof.
  induction s as [|d s IH]; simpl; [done|].
  destruct (Ascii.eqb c d); simpl; lia.
Qed.

Lemma length_app_string a b :
  String.length (a +:+ b) = (String.length a + String.length b)%nat.
Proof.
  induction a as [|d a IH];
    rewrite ?PyFacts.app_String, ?PyFacts.app_Empty; simpl; auto.
Qed.

End PyExtra.


(** ** More on the archive *)

Module ArchiveExtra.
Import GalleryManager.

Lemma file_name_of_inj i j g g' file_format :
  file_name_of i g file_format = file_name_of j g' file_format → i = j.
Proof.
  unfold file_name_of. intros E.
  apply PyExtra.first_field_inj in E as [E _];
    [|apply PyExtra.zfill_free_of_underscore..].
  apply PyExtra.zfill_inj in E; lia.
Qed.

Lemma file_name_of_not_manifest i g file_format :
  file_name_of i g file_format ≠ "generation_info.txt".
Proof.
  unfold file_name_of.
  destruct (PyExtra.zfill_head 2 (Z.of_nat i + 1)) as (d & s & -> & Hd);
    [lia|].
  rewrite PyFacts.app_String. intros E. injection E as E _. done.
Qed.

(** Whatever the prompts and the format, no two members of an archive
    have the same name: the image members differ in their number, and
    none of them is named like the manifest. *)
Theorem archive_names_distinct `{Pillow} (images : list image_data)
    (file_format : string) (z : list zip_member) :
  create_zip images file_format = Some z →
  NoDup (member_name <$> z).
Proof.
  intros (files & -> & Hnames)%GalleryFacts.create_zip_shape.
  rewrite fmap_app, Hnames. apply NoDup_app. split_and!.
  - apply NoDup_alt. intros i j x.
    rewrite !list_lookup_imap.
    destruct (images !! i) as [g|] eqn:Ei; [|done].
    destruct (images !! j) as [g'|] eqn:Ej; [|done].
    simpl. intros [= <-] [= E]. by apply file_name_of_inj in E.
  - intros x (i & Hx)%list_elem_of_lookup_1.
    rewrite list_lookup_imap in Hx.
    destruct (images !! i) as [g|]; [|done]. injection Hx as <-.
    intros Hin%list_elem_of_singleton.
    by apply file_name_of_not_manifest in Hin.
  - apply NoDup_singleton.
Qed.

(** The part of a file name taken from the prompt has at most thirty
    characters and none of the nine characters the code removes; when
    the first thirty characters of the prompt have none of them, it is
    those thirty characters unchanged. *)
Theorem sanitized_prompt_is_clean (prompt : string) :
  let prompt_short := sanitize (Py.take 30 prompt) in
  Forall (λ c, Py.free_of c prompt_short) invalid_characters
  ∧ (String.length prompt_short ≤ 30)%nat
  ∧ (Forall (λ c, Py.free_of c (Py.take 30 prompt)) invalid_characters →
     prompt_short = Py.take 30 prompt).
Proof.
  cbn zeta.
  assert (∀ cs s,
            (String.length (foldl (λ acc char, Py.remove_char char acc) s cs)
             ≤ String.length s)%nat) as Hlen.
  { induction cs as [|c cs IH]; intros s; simpl; [done|].
    etrans; [apply IH|apply PyExtra.remove_char_length]. }
  split_and!.
  - unfold sanitize, invalid_characters. cbn [foldl].
    repeat constructor;
      repeat (apply PyExtra.remove_char_free
              || apply PyExtra.remove_char_keeps_free).
  - unfold sanitize. etrans; [apply Hlen|].
    rewrite PyExtra.take_length. lia.
  - unfold sanitize, invalid_characters. cbn [foldl]. intros Hclean.
    repeat (apply Forall_cons in Hclean as [? Hclean]).
    repeat match goal with
           | Hf : Py.free_of ?c ?s |- context [Py.remove_char ?c ?s] =>
               rewrite (PyExtra.remove_char_id c s Hf)
           end.
    done.
Qed.

Lemma write_images_mapM `{Pillow} index images file_format zip_file :
  write_images index images file_format zip_file =
  match mapM (λ g, Image_save (image g) file_format) images with
  | Some datas =>
      Some (zip_file ++
            zip_with mkMember
              (imap (λ i g, file_name_of (index + i) g file_format) images)
              datas)
  | None => None
  end.
Proof.
  revert index zip_file.
  induction images as [|g later IH]; intros index zip_file.
  - simpl. by rewrite app_nil_r.
  - cbn [write_images mapM]. simpl.
    destruct (Image_save (image g) file_format) as [bytes|]; [|done].
    simpl. rewrite IH.
    destruct (mapM _ later) as [datas|]; [|done]. simpl.
    rewrite <- app_assoc, Nat.add_0_r. simpl. do 4 f_equal.
    apply imap_ext. intros i g' _. simpl. f_equal. lia.
Qed.

(** [create_zip] gives an archive exactly when every image can be
    encoded. The archive then holds, in the order of the records, one
    member per record with the encoded bytes under the name made of its
    position and prompt, and after them the manifest: the header and
    one block per record in the same order. When one image cannot be
    encoded there is no archive at all. *)
Theorem create_zip_all_or_nothing `{Pillow} (images : list image_data)
    (file_format : string) :
  match mapM (λ g, Image_save (image g) file_format) images with
  | Some datas =>
      create_zip images file_format
      = Some (zip_with mkMember
                (imap (λ i g, file_name_of i g file_format) images) datas
              ++ [mkMember "generation_info.txt"
                    (metadata_header +:+
                     String.concat EmptyString
                       (imap metadata_block images))])
      ∧ length datas = length images
  | None =>
      create_zip images file_format = None
      ∧ Exists (λ g, Image_save (image g) file_format = None) images
  end.
Proof.
  unfold create_zip. rewrite write_images_mapM.
  destruct (mapM _ images) as [datas|] eqn:E.
  - split.
    + by rewrite GalleryFacts.write_metadata_blocks.
    + symmetry. by eapply length_mapM.
  - split; [done|]. by apply mapM_None_1.
Qed.

Lemma digits_free_of_N d : Py.free_of "N" (NilEmpty.string_of_uint d).
Proof. induction d; simpl; try split; auto; discriminate. Qed.

Lemma str_not_marker n : Py.str n ≠ "Not specified".
Proof.
  assert (Py.free_of "N" (Py.str n)) as Hfree.
  { unfold Py.str.
    destruct (Z.to_int n) as [d|d]; simpl;
      [|split; [discriminate|]];
      (destruct d; simpl; try split; try discriminate; auto;
       apply digits_free_of_N). }
  intros E. rewrite E in Hfree. by destruct Hfree.
Qed.

Lemma step_keeps_seed_key `{Pillow} st o :
  Forall (λ g, is_Some (seed g)) (gallery st) →
  Forall (λ g, is_Some (seed g)) (gallery (step st o).2).
Proof.
  intros Hall. destruct o; simpl; try done.
  - apply Forall_app. split; [done|]. by repeat constructor.
  - unfold delete_image.
    destruct (list_find _ _) as [[index g]|]; simpl; [|done].
    by apply Forall_delete.
  - unfold toggle_favorite.
    destruct (list_find _ _) as [[index g]|] eqn:E; simpl; [|done].
    apply GalleryFacts.find_lt in E as [Hl _].
    apply Forall_insert; [done|]. rewrite Forall_forall in Hall.
    apply (Hall g). by eapply list_elem_of_lookup_2.
Qed.

(** In every store reached from a new one, every record has the key
    ["seed"], with the value [None] or an integer. The seed line of the
    manifest is therefore the text [None] or the decimal seed, and
    never the default [Not specified] of the [dict.get] in
    [create_zip]. *)
Theorem stored_records_print_their_seed `{Pillow} (ops : list op) :
  Forall (λ g,
    ∃ v, seed g = Some v
         ∧ seed_text g = match v with
                         | None => "None"
                         | Some n => Py.str n
                         end
         ∧ seed_text g ≠ "Not specified")
    (gallery (run new_session ops).2).
Proof.
  assert (∀ ops st,
            Forall (λ g, is_Some (seed g)) (gallery st) →
            Forall (λ g, is_Some (seed g)) (gallery (run st ops).2)) as Hrun.
  { clear ops. induction ops as [|o later IH]; intros st Hst; [done|].
    rewrite GalleryFacts.run_cons. cbn [snd].
    by apply IH, step_keeps_seed_key. }
  eapply Forall_impl; [apply (Hrun ops new_session); constructor|].
  intros g [v Hv]. exists v. unfold seed_text. rewrite Hv.
  split_and!; [done|done|].
  destruct v as [n|]; [apply str_not_marker|discriminate].
Qed.

Lemma sanitized_prompt_is_clean_witness :
  Forall (λ c, Py.free_of c "a cat") invalid_characters
  ∧ sanitize (Py.take 30 "a cat") = "a cat".
Proof.
  assert (Forall (λ c, Py.free_of c (Py.take 30 "a cat")) invalid_characters)
    as Hclean.
  { repeat constructor; discriminate. }
  split; [exact Hclean|].
  exact (proj2 (proj2 (sanitized_prompt_is_clean "a cat")) Hclean).
Defined.

Lemma archive_names_distinct_witness :
  create_zip (H := Samples.sample_pillow)
    (gallery Samples.one_image) "PNG"
  = Some [mkMember "01_a cat.png" "PNG:pixels";
          mkMember "generation_info.txt"
            (write_metadata 0 (gallery Samples.one_image) metadata_header)]
  ∧ NoDup ["01_a cat.png"; "generation_info.txt"].
Proof.
  assert (create_zip (H := Samples.sample_pillow)
            (gallery Samples.one_image) "PNG"
          = Some [mkMember "01_a cat.png" "PNG:pixels";
                  mkMember "generation_info.txt"
                    (write_metadata 0 (gallery Samples.one_image)
                       metadata_header)]) as E by reflexivity.
  split; [exact E|].
  exact (archive_names_distinct (H := Samples.sample_pillow) _ _ _ E).
Defined.

End ArchiveExtra.

(** ** More on the generation client *)

Module ClientExtra.
Import HfApiHandler.

Section Client.
Variable env : Env.
Variable a : gen_args.

Lemma get_client_None :
  get_client env = None ↔
  Py.truthy (HUGGINGFACE_API_KEY env) = false
  ∨ ∃ key e, HUGGINGFACE_API_KEY env = Some key
             ∧ InferenceClient_raises env key = Some e.
Proof.
  unfold get_client.
  destruct (HUGGINGFACE_API_KEY env) as [[|ch key]|]; simpl.
  - split; [by left|done].
  - destruct (InferenceClient_raises env _) as [e|] eqn:E.
    + split; [|done]. intros _. right. by exists (String ch key), e.
    + split; [done|]. intros [?|(key' & e & [= <-] & E')]; congruence.
  - split; [by left|done].
Qed.

Lemma generate_image_no_client seed h :
  get_client env = None →
  generate_image env a seed h = ((false, None, msg_no_client), h).
Proof. intros Hno. unfold generate_image. by rewrite Hno. Qed.

(** Without a key (absent or empty), or when the client cannot be
    constructed, [generate_image] fails with the connection message and
    sends nothing to the endpoint. *)
Theorem no_client_no_request (seed : option Z) (h : list event) :
  Py.truthy (HUGGINGFACE_API_KEY env) = false
  ∨ (∃ key e, HUGGINGFACE_API_KEY env = Some key
              ∧ InferenceClient_raises env key = Some e) →
  generate_image env a seed h
  = ((false, None, "Could not establish API connection. Check API key."), h).
Proof. intros Hno%get_client_None. by apply generate_image_no_client. Qed.

Lemma try_models_result c models h :
  match (try_models env c a models h).1 with
  | (true, Some _, message) => message = msg_success
  | (false, None, message) =>
      message ∈ [msg_loading; msg_rate_limit; msg_unauthorized; msg_all_failed]
  | _ => False
  end.
Proof.
  revert h. induction models as [|model rest IH]; intros h.
  - simpl. set_solver.
  - cbn [try_models]. unfold bind, call_text_to_image.
    destruct (text_to_image env c h _) as [img|error_msg]; [done|].
    destruct (is_loading _); [simpl; set_solver|].
    destruct (is_rate_limited _); [simpl; set_solver|].
    destruct (is_unauthorized _); [simpl; set_solver|].
    apply IH.
Qed.

Lemma success_has_image seed h success image message :
  (generate_image env a seed h).1 = (success, image, message) →
  success = true → is_Some image.
Proof.
  unfold generate_image. destruct (get_client env) as [c|].
  - pose proof (try_models_result c (models_to_try env) h) as Hshape.
    intros E. rewrite E in Hshape. intros ->. by destruct image.
  - simpl. by intros [= <- _ _].
Qed.

(** The triple [generate_image] returns is either [True] with an image
    and the success message, or [False] without an image and with one
    of its five failure messages. *)
Theorem generate_image_result_shape (seed : option Z) (h : list event) :
  match (generate_image env a seed h).1 with
  | (true, Some _, message) => message = "Image generated successfully!"
  | (false, None, message) =>
      message ∈
        [ "Could not establish API connection. Check API key.";
          "Model is loading... Please wait 30 seconds and try again.";
          "Too many requests! Wait 1 minute and try again.";
          "API key is invalid! Get a new token from Hugging Face.";
          "Could not generate image. Please try again later." ]
  | _ => False
  end.
Proof.
  unfold generate_image. destruct (get_client env) as [c|].
  - pose proof (try_models_result c (models_to_try env) h) as Hshape.
    destruct (try_models _ _ _ _ _) as [[[[] [img|]] message] h'];
      simpl in *; try done.
    right. exact Hshape.
  - simpl. by left.
Qed.

(** What a call adds to the history: the requests for a prefix of the
    candidates, nothing when there is no client. *)
Lemma generate_image_events seed h :
  ∃ k : nat,
    (k ≤ length (models_to_try env))%nat
    ∧ (generate_image env a seed h).2
      = h ++ attempts a (take k (models_to_try env)).
Proof.
  unfold generate_image. destruct (get_client env) as [c|].
  - destruct (ClientFacts.try_models_spec env a c (models_to_try env) h)
      as (k & Hk & Hh & _).
    by exists k.
  - exists 0%nat. simpl. split; [lia|by rewrite app_nil_r].
Qed.

Lemma sleeps_attempts models : sleeps (attempts a models) = [].
Proof. by induction models. Qed.

Lemma requests_attempts models :
  requests (attempts a models) = request_for a <$> models.
Proof. induction models as [|m models IH]; simpl; [done|]. by f_equal. Qed.

(** Every request of a [generate_image] call carries the caller's
    prompt, size, step count and guidance unchanged, the negative
    prompt unless it is empty, no seed, and one of the candidate
    models; there are at most one request per candidate, and the call
    never sleeps. *)
Theorem generate_image_requests (seed : option Z) (h : list event) :
  ∃ new,
    (generate_image env a seed h).2 = h ++ new
    ∧ sleeps new = []
    ∧ (length (requests new) ≤ 1 + length (ALTERNATIVE_MODELS env))%nat
    ∧ Forall (λ r,
        rq_prompt r = prompt a
        ∧ rq_negative_prompt r
          = (if String.eqb (negative_prompt a) EmptyString then None
             else Some (negative_prompt a))
        ∧ rq_width r = width a
        ∧ rq_height r = height a
        ∧ rq_num_inference_steps r = num_steps a
        ∧ rq_guidance_scale r = guidance_scale a
        ∧ rq_seed r = None
        ∧ rq_model r ∈ DEFAULT_MODEL :: ALTERNATIVE_MODELS env)
        (requests new).
Proof.
  destruct (generate_image_events seed h) as (k & Hk & Hh).
  eexists. split; [exact Hh|]. split_and!.
  - apply sleeps_attempts.
  - rewrite requests_attempts, length_fmap, length_take.
    change (models_to_try env) with (DEFAULT_MODEL :: ALTERNATIVE_MODELS env).
    simpl. lia.
  - rewrite requests_attempts. apply Forall_fmap, Forall_forall.
    intros model Hmodel. simpl. split_and!; try done.
    + by destruct (negative_prompt a).
    + apply (subseteq_take k) in Hmodel. exact Hmodel.
Qed.

Lemma first_request seed h key :
  HUGGINGFACE_API_KEY env = Some key →
  key ≠ EmptyString →
  InferenceClient_raises env key = None →
  ∃ rest,
    (generate_image env a seed h).2
    = h ++ TextToImage (request_for a DEFAULT_MODEL) :: rest.
Proof.
  intros Hkey Hne Hok.
  unfold generate_image, get_client. rewrite Hkey.
  destruct key as [|ch key]; [done|]. cbn [Py.truthy negb]. rewrite Hok.
  change (models_to_try env) with (DEFAULT_MODEL :: ALTERNATIVE_MODELS env).
  cbn [try_models]. unfold bind at 1, call_text_to_image.
  destruct (text_to_image env _ h _) as [img|error_msg].
  { by exists []. }
  destruct (is_loading _); [by exists []|].
  destruct (is_rate_limited _); [by exists []|].
  destruct (is_unauthorized _); [by exists []|].
  destruct (ClientFacts.try_models_spec env a
              (mkClient (String ch key)) (ALTERNATIVE_MODELS env)
              (h ++ [TextToImage (request_for a DEFAULT_MODEL)]))
    as (k & _ & -> & _).
  eexists. by rewrite <- app_assoc.
Qed.

(** Whenever the key is not empty and the client can be constructed,
    [generate_image] sends its first request to [DEFAULT_MODEL]: it
    does not look at the prefix of the key, so this also holds for a
    key [test_api_connection] reports as malformed. *)
Theorem generate_image_ignores_prefix (seed : option Z) (h h' : list event)
    (key : string) :
  HUGGINGFACE_API_KEY env = Some key →
  key ≠ EmptyString →
  InferenceClient_raises env key = None →
  (∃ rest,
     (generate_image env a seed h).2
     = h ++ TextToImage (request_for a DEFAULT_MODEL) :: rest)
  ∧ (test_api_connection env h').1
    = (if Py.startswith key "hf_" then (true, "API connection ready.")
       else (false, "API key format is wrong! Should start with 'hf_'.")).
Proof.
  intros Hkey Hne Hok. split.
  - by apply (first_request seed h key).
  - unfold test_api_connection. rewrite Hkey.
    destruct key as [|ch key]; [done|]. cbn [Py.truthy negb].
    destruct (Py.startswith _ _); [|done]. cbn [negb]. by rewrite Hok.
Qed.

(** When [test_api_connection] reports ready, a following
    [generate_image] gets a client and reaches the endpoint. *)
Theorem ready_then_request (seed : option Z) (h h' : list event) :
  (test_api_connection env h').1.1 = true →
  ∃ rest,
    (generate_image env a seed h).2
    = h ++ TextToImage (request_for a DEFAULT_MODEL) :: rest.
Proof.
  unfold test_api_connection.
  destruct (HUGGINGFACE_API_KEY env) as [[|ch key]|] eqn:Hkey;
    cbn [Py.truthy negb]; try done.
  destruct (Py.startswith _ _); cbn [negb]; [|done].
  destruct (InferenceClient_raises env _) eqn:Hok; [done|]. intros _.
  by apply (first_request seed h (String ch key)).
Qed.

Lemma sleeps_app h1 h2 : sleeps (h1 ++ h2) = sleeps h1 ++ sleeps h2.
Proof. apply omap_app. Qed.

Lemma requests_app h1 h2 : requests (h1 ++ h2) = requests h1 ++ requests h2.
Proof. apply omap_app. Qed.

Lemma range_below (n : nat) (c : Z) :
  length (filter (λ i, i < c) (Z.of_nat <$> seq 0 n))
  = Nat.min n (Z.to_nat c).
Proof.
  induction n as [|n IH]; [done|].
  rewrite seq_S, fmap_app, filter_app, length_app, IH.
  change (Z.of_nat <$> [(0 + n)%nat]) with [Z.of_nat n].
  destruct (decide (Z.of_nat n < c)).
  - rewrite filter_cons_True by done. cbn [filter list_filter length]. lia.
  - rewrite filter_cons_False by done. cbn [filter list_filter length]. lia.
Qed.

(** The history of the loop over any list of indices. *)
Lemma batch_loop_events base_seed count indices successes errors h :
  ∃ new,
    (batch_loop env a base_seed count indices successes errors h).2 = h ++ new
    ∧ sleeps new
      = replicate (length (filter (λ i, i < count - 1) indices)) 3
    ∧ (length (requests new)
       ≤ length indices * (1 + length (ALTERNATIVE_MODELS env)))%nat.
Proof.
  revert successes errors h.
  induction indices as [|i later IH]; intros successes errors h.
  - exists []. simpl. by rewrite app_nil_r.
  - cbn [batch_loop]. unfold bind at 1.
    destruct (generate_image_events (Some (base_seed + i)) h)
      as (k & Hk & Hh1).
    pose proof (sleeps_attempts (take k (models_to_try env))) as Hs1.
    assert (length (requests (attempts a (take k (models_to_try env))))
            ≤ 1 + length (ALTERNATIVE_MODELS env))%nat as Hr1.
    { rewrite requests_attempts, length_fmap, length_take.
      change (models_to_try env) with (DEFAULT_MODEL :: ALTERNATIVE_MODELS env).
      simpl. lia. }
    set (new1 := attempts a (take k (models_to_try env))) in *.
    destruct (generate_image _ _ _ _) as [[[success image] message] h1].
    simpl in Hh1. subst h1. unfold bind.
    destruct (Z.ltb_spec i (count - 1)) as [Hlt|Hge].
    + unfold sleep.
      match goal with
      | |- context [batch_loop _ _ _ _ later ?s ?e ?h'] =>
          destruct (IH s e h') as (new2 & -> & Hs2 & Hr2)
      end.
      exists (new1 ++ [Sleep 3] ++ new2).
      rewrite <- !app_assoc. split_and!; [done| |].
      * rewrite !sleeps_app, Hs1, Hs2, filter_cons_True by done. done.
      * rewrite !requests_app, !length_app. simpl. lia.
    + unfold ret.
      match goal with
      | |- context [batch_loop _ _ _ _ later ?s ?e ?h'] =>
          destruct (IH s e h') as (new2 & -> & Hs2 & Hr2)
      end.
      exists (new1 ++ new2).
      rewrite <- !app_assoc. split_and!; [done| |].
      * rewrite !sleeps_app, Hs1, Hs2, filter_cons_False by lia. done.
      * rewrite !requests_app, !length_app. simpl. lia.
Qed.

(** A batch of [count] images pauses [count - 1] times, three seconds
    each time (never for a count of one or less), and sends at most
    one request per candidate model and attempt. *)
Theorem batch_pacing (count time_now : Z) (h : list event) :
  ∃ new,
    (generate_multiple_images env a count time_now h).2 = h ++ new
    ∧ sleeps new = replicate (Z.to_nat (count - 1)) 3
    ∧ (length (requests new)
       ≤ Z.to_nat count * (1 + length (ALTERNATIVE_MODELS env)))%nat.
Proof.
  unfold generate_multiple_images.
  destruct (batch_loop_events time_now count (Py.range count) [] [] h)
    as (new & Hh & Hs & Hr).
  exists new. split_and!; [done| |].
  - rewrite Hs. unfold Py.range. rewrite range_below. f_equal. lia.
  - unfold Py.range in Hr. by rewrite length_fmap, length_seq in Hr.
Qed.

Lemma success_seeds_sublist base_seed (l : list (Z * result)) :
  be_seed <$> omap (success_of base_seed) l
  `sublist_of` (λ i, base_seed + i) <$> l.*1.
Proof.
  induction l as [|[i [[[] image] message]] l IH]; simpl.
  - done.
  - by apply sublist_skip.
  - by apply sublist_cons.
Qed.

Lemma batch_entries_bounded count time_now h :
  Forall (λ e, is_Some (be_image e)
               ∧ time_now ≤ be_seed e < time_now + count)
    (generate_multiple_images env a count time_now h).1.1.
Proof.
  unfold generate_multiple_images.
  rewrite ClientFacts.batch_loop_spec. cbn [fst snd app].
  pose proof (ClientFacts.attempt_results_run env a time_now count
                (Py.range count) h) as Hrun.
  pose proof (ClientFacts.attempt_results_indices env a time_now count
                (Py.range count) h) as Hidx.
  assert (Forall (λ o : Z * result, 0 ≤ o.1 < count)
            (attempt_results env a time_now count (Py.range count) h))
    as Hbound.
  { apply Forall_forall. intros o Ho.
    assert (o.1 ∈ Py.range count) as Hin.
    { rewrite <- Hidx. by apply list_elem_of_fmap_2. }
    unfold Py.range in Hin.
    apply list_elem_of_fmap in Hin as (k & -> & Hk%elem_of_seq). lia. }
  revert Hrun Hbound.
  generalize (attempt_results env a time_now count (Py.range count) h).
  intros l Hrun Hbound.
  induction l as [|[i [[success image] message]] l IH]; [constructor|].
  apply Forall_cons in Hrun as [(h' & Hr) Hrun].
  apply Forall_cons in Hbound as [Hi Hbound].
  simpl in Hr, Hi. destruct success; simpl; [|by apply IH].
  constructor; [|by apply IH]. simpl. split; [|lia].
  by eapply (success_has_image (Some (time_now + i)) h' true).
Qed.

(** The seeds recorded in a batch are values [base + i] with
    [0 <= i < count], in increasing order of [i] and therefore pairwise
    distinct, and every recorded entry holds an image. *)
Theorem batch_seeds_distinct (count time_now : Z) (h : list event) :
  let successes := (generate_multiple_images env a count time_now h).1.1 in
  be_seed <$> successes
  `sublist_of` (λ i, time_now + i) <$> Py.range count
  ∧ NoDup (be_seed <$> successes)
  ∧ Forall (λ e, is_Some (be_image e)
                 ∧ time_now ≤ be_seed e < time_now + count) successes.
Proof.
  cbn zeta. unfold generate_multiple_images.
  rewrite ClientFacts.batch_loop_spec. cbn [fst snd app].
  pose proof (success_seeds_sublist time_now
                (attempt_results env a time_now count (Py.range count) h))
    as Hsub.
  rewrite ClientFacts.attempt_results_indices in Hsub.
  split_and!.
  - done.
  - eapply sublist_NoDup; [|done].
    apply NoDup_fmap_2; [intros x y; lia|].
    apply NoDup_fmap_2; [intros x y; lia|]. apply NoDup_seq.
  - pose proof (batch_entries_bounded count time_now h) as Hb.
    unfold generate_multiple_images in Hb.
    by rewrite ClientFacts.batch_loop_spec in Hb.
Qed.

(** Without a usable key, a batch sends nothing to the endpoint,
    returns no image, and returns one connection error per requested
    image, numbered from 1. *)
Theorem batch_without_client (count time_now : Z) (h : list event) :
  Py.truthy (HUGGINGFACE_API_KEY env) = false
  ∨ (∃ key e, HUGGINGFACE_API_KEY env = Some key
              ∧ InferenceClient_raises env key = Some e) →
  (generate_multiple_images env a count time_now h).1
  = ([], (λ i, "Image " +:+ Py.str (i + 1) +:+
               ": Could not establish API connection. Check API key.")
         <$> Py.range count)
  ∧ ∃ new,
      (generate_multiple_images env a count time_now h).2 = h ++ new
      ∧ requests new = [].
Proof.
  intros Hno%get_client_None. unfold generate_multiple_images.
  assert (∀ indices successes errors h,
            (batch_loop env a time_now count indices successes errors h).1
            = (successes,
               errors ++
               ((λ i, "Image " +:+ Py.str (i + 1) +:+
                      ": Could not establish API connection. Check API key.")
                <$> indices))
            ∧ ∃ new,
                (batch_loop env a time_now count indices successes errors h).2
                = h ++ new
                ∧ requests new = []) as Hloop.
  { clear h. induction indices as [|i later IH]; intros successes errors h.
    - simpl. rewrite app_nil_r. split; [done|].
      exists []. by rewrite app_nil_r.
    - cbn [batch_loop]. unfold bind.
      rewrite !(generate_image_no_client _ h Hno).
      destruct (i <? count - 1); unfold sleep, ret; cbv beta iota zeta.
      + match goal with
        | |- context [batch_loop _ _ _ _ later ?s ?e ?h'] =>
            destruct (IH s e h') as (-> & new & -> & Hnew)
        end.
        split; [by rewrite <- app_assoc|].
        exists (Sleep 3 :: new). split; [by rewrite <- app_assoc|done].
      + match goal with
        | |- context [batch_loop _ _ _ _ later ?s ?e ?h'] =>
            destruct (IH s e h') as (-> & new & -> & Hnew)
        end.
        split; [by rewrite <- app_assoc|]. by exists new. }
  destruct (Hloop (Py.range count) [] [] h) as (-> & new & -> & Hnew).
  split; [done|]. by exists new.
Qed.

End Client.

Lemma no_client_no_request_witness :
  (Py.truthy (HUGGINGFACE_API_KEY Samples.broken_constructor) = false
   ∨ ∃ key e, HUGGINGFACE_API_KEY Samples.broken_constructor = Some key
              ∧ InferenceClient_raises Samples.broken_constructor key
                = Some e)
  ∧ (generate_image Samples.broken_constructor Samples.cat None []).2 = [].
Proof.
  assert (Py.truthy (HUGGINGFACE_API_KEY Samples.broken_constructor) = false
          ∨ ∃ key e, HUGGINGFACE_API_KEY Samples.broken_constructor = Some key
                     ∧ InferenceClient_raises Samples.broken_constructor key
                       = Some e) as Hno.
  { right. exists "hf_abc", "boom". split; reflexivity. }
  split; [exact Hno|].
  rewrite (no_client_no_request Samples.broken_constructor Samples.cat
             None [] Hno).
  reflexivity.
Defined.

Lemma batch_without_client_witness :
  (Py.truthy (HUGGINGFACE_API_KEY Samples.broken_constructor) = false
   ∨ ∃ key e, HUGGINGFACE_API_KEY Samples.broken_constructor = Some key
              ∧ InferenceClient_raises Samples.broken_constructor key
                = Some e)
  ∧ (generate_multiple_images Samples.broken_constructor Samples.cat 2
       1700000000 []).1.1 = [].
Proof.
  assert (Py.truthy (HUGGINGFACE_API_KEY Samples.broken_constructor) = false
          ∨ ∃ key e, HUGGINGFACE_API_KEY Samples.broken_constructor = Some key
                     ∧ InferenceClient_raises Samples.broken_constructor key
                       = Some e) as Hno.
  { right. exists "hf_abc", "boom". split; reflexivity. }
  split; [exact Hno|].
  destruct (batch_without_client Samples.broken_constructor Samples.cat 2
              1700000000 [] Hno) as [E _].
  rewrite E. reflexivity.
Defined.

Lemma generate_image_ignores_prefix_witness :
  HUGGINGFACE_API_KEY Samples.healthy = Some "hf_abc"
  ∧ "hf_abc" ≠ EmptyString
  ∧ InferenceClient_raises Samples.healthy "hf_abc" = None
  ∧ ∃ rest,
      (generate_image Samples.healthy Samples.cat None []).2
      = TextToImage (request_for Samples.cat DEFAULT_MODEL) :: rest.
Proof.
  assert ("hf_abc" ≠ EmptyString) as Hne by discriminate.
  split_and!; [reflexivity|exact Hne|reflexivity|].
  exact (proj1 (generate_image_ignores_prefix Samples.healthy Samples.cat
                  None [] [] "hf_abc" eq_refl Hne eq_refl)).
Defined.

Lemma ready_then_request_witness :
  (test_api_connection Samples.healthy []).1.1 = true
  ∧ ∃ rest,
      (generate_image Samples.healthy Samples.cat None []).2
      = TextToImage (request_for Samples.cat DEFAULT_MODEL) :: rest.
Proof.
  split; [reflexivity|].
  exact (ready_then_request Samples.healthy Samples.cat None [] [] eq_refl).
Defined.

End ClientExtra.

(** ** The helpers of the application *)

Module AppExtra.
Import App.

Lemma dict_get_absent {V} (d : list (string * V)) key (default : V) :
  key ∉ d.*1 → dict_get d key default = default.
Proof.
  induction d as [|[k v] d IH]; simpl; [done|]. intros Hnot.
  destruct (String.eqb k key) eqn:E.
  - apply String.eqb_eq in E. subst k. exfalso. apply Hnot. by left.
  - apply IH. intros Hin. apply Hnot. by right.
Qed.

Lemma prefix_app a b : String.prefix a (a +:+ b) = true.
Proof.
  induction a as [|c a IH]; [by destruct b|].
  rewrite PyFacts.app_String. simpl. by destruct (ascii_dec c c).
Qed.

(** The ten names, with the name lookup of [elem_of] turned into ten
    cases. *)
Lemma style_cases (P : string → Prop) :
  P "Photorealistic" → P "Digital Art" → P "Oil Painting" →
  P "Watercolor" → P "Comic Book" → P "Anime" → P "Minimalist" →
  P "Abstract" → P "3D Render" → P "Sketch" →
  ∀ style_name, style_name ∈ STYLE_NAMES → P style_name.
Proof.
  intros ?????????? style_name Hin. unfold STYLE_NAMES in Hin. simpl in Hin.
  repeat (apply elem_of_cons in Hin as [->|Hin]; [done|]).
  by apply elem_of_nil in Hin.
Qed.

(** The enriched prompt always starts with the user's text. For a style
    that is not a preset it is the user's text unchanged; for each of
    the presets the text is followed by a comma, a space and the
    keywords of the style. *)
Theorem enrich_prompt_keeps_text (main_prompt style_name : string) :
  String.prefix main_prompt (enrich_prompt main_prompt style_name) = true
  ∧ (style_name ∉ STYLE_NAMES →
     enrich_prompt main_prompt style_name = main_prompt)
  ∧ (style_name ∈ STYLE_NAMES →
     ∃ keywords,
       keywords ≠ EmptyString
       ∧ enrich_prompt main_prompt style_name
         = main_prompt +:+ ", " +:+ keywords).
Proof.
  split_and!.
  - apply prefix_app.
  - intros Hnot. unfold enrich_prompt.
    rewrite (dict_get_absent STYLE_PRESETS) by done. simpl.
    apply PyFacts.app_Empty_r.
  - revert style_name.
    apply style_cases; (eexists; split; [|reflexivity]; discriminate).
Qed.

(** The negative prompt sent for a preset is never empty: it is the
    style's own list, followed by a comma, a space and the user's text
    when the user gave one. For a style that is not a preset it is the
    user's text unchanged. *)
Theorem get_negative_prompt_combines (style_name user_negative : string) :
  (style_name ∉ STYLE_NAMES →
   get_negative_prompt style_name user_negative = user_negative)
  ∧ (style_name ∈ STYLE_NAMES →
     ∃ style_negative,
       style_negative ≠ EmptyString
       ∧ get_negative_prompt style_name EmptyString = style_negative
       ∧ (user_negative ≠ EmptyString →
          get_negative_prompt style_name user_negative
          = style_negative +:+ ", " +:+ user_negative)
       ∧ get_negative_prompt style_name user_negative ≠ EmptyString).
Proof.
  split.
  - intros Hnot. unfold get_negative_prompt.
    rewrite (dict_get_absent STYLE_PRESETS) by done. simpl.
    by destruct user_negative.
  - revert style_name.
    apply style_cases;
      (eexists; split_and!;
       [|reflexivity|by destruct user_negative|by destruct user_negative];
       discriminate).
Qed.

Lemma enrich_prompt_keeps_text_witness :
  "Anime" ∈ STYLE_NAMES
  ∧ ∃ keywords, enrich_prompt "a cat" "Anime" = "a cat" +:+ ", " +:+ keywords.
Proof.
  assert ("Anime" ∈ STYLE_NAMES) as Hin.
  { unfold STYLE_NAMES. simpl. do 5 right. left. }
  split; [exact Hin|].
  destruct (proj2 (proj2 (enrich_prompt_keeps_text "a cat" "Anime")) Hin)
    as (keywords & _ & E).
  by exists keywords.
Defined.

Lemma get_negative_prompt_combines_witness :
  "Anime" ∈ STYLE_NAMES
  ∧ get_negative_prompt "Anime" "dogs" ≠ EmptyString.
Proof.
  assert ("Anime" ∈ STYLE_NAMES) as Hin.
  { unfold STYLE_NAMES. simpl. do 5 right. left. }
  split; [exact Hin|].
  destruct (proj2 (get_negative_prompt_combines "Anime" "dogs") Hin)
    as (style_negative & _ & _ & _ & Hne).
  exact Hne.
Defined.

(** For every preset, the request built from the enriched prompt and
    the combined negative prompt carries a negative prompt, and its
    prompt starts with the user's text. *)
Theorem preset_request_carries_negative_prompt
    (main_prompt style_name user_negative model : string)
    (width height num_steps : Z) (guidance : Q) :
  style_name ∈ STYLE_NAMES →
  let a :=
    HfApiHandler.mkArgs (enrich_prompt main_prompt style_name)
      (get_negative_prompt style_name user_negative)
      width height num_steps guidance in
  HfApiHandler.rq_negative_prompt (HfApiHandler.request_for a model)
  = Some (get_negative_prompt style_name user_negative)
  ∧ String.prefix main_prompt
      (HfApiHandler.rq_prompt (HfApiHandler.request_for a model)) = true.
Proof.
  intros Hin. cbn zeta. split; [|apply prefix_app].
  unfold HfApiHandler.request_for. cbn [HfApiHandler.rq_negative_prompt
    HfApiHandler.negative_prompt].
  revert style_name Hin. apply style_cases; by destruct user_negative.
Qed.

Lemma preset_request_carries_negative_prompt_witness :
  "Anime" ∈ STYLE_NAMES
  ∧ HfApiHandler.rq_negative_prompt
      (HfApiHandler.request_for
         (HfApiHandler.mkArgs (enrich_prompt "a cat" "Anime")
            (get_negative_prompt "Anime" "dogs") 512 512 25 (75 # 10))
         HfApiHandler.DEFAULT_MODEL)
    = Some (get_negative_prompt "Anime" "dogs").
Proof.
  assert ("Anime" ∈ STYLE_NAMES) as Hin.
  { unfold STYLE_NAMES. simpl. do 5 right. left. }
  split; [exact Hin|].
  exact (proj1 (preset_request_carries_negative_prompt "a cat" "Anime" "dogs"
                  HfApiHandler.DEFAULT_MODEL 512 512 25 (75 # 10) Hin)).
Defined.

(** The grid in terms of list operations: row [k] is the three records
    from position [3 * k] on. *)
Lemma rows_alt {A} (l : list A) :
  rows l = (λ k, take 3 (drop (3 * k) l)) <$> seq 0 ((length l + 2) / 3).
Proof.
  unfold rows, Py.range_step, Py.slice.
  rewrite <- list_fmap_compose.
  replace (Z.to_nat ((Z.of_nat (length l) - 0 + 3 - 1) / 3))
    with ((length l + 2) / 3)%nat.
  - apply list_fmap_ext. intros _ k _. simpl.
    replace (Z.to_nat (0 + Z.of_nat k * 3 + 3 - (0 + Z.of_nat k * 3)))
      with 3%nat by lia.
    replace (Z.to_nat (0 + Z.of_nat k * 3)) with (3 * k)%nat by lia.
    done.
  - rewrite <- (Nat2Z.id ((length l + 2) / 3)). f_equal.
    rewrite Nat2Z.inj_div. f_equal. lia.
Qed.

Lemma concat_rows {A} (l : list A) (m : nat) :
  concat ((λ k, take 3 (drop (3 * k) l)) <$> seq 0 m) = take (3 * m) l.
Proof.
  induction m as [|m IH]; [by rewrite take_0|].
  rewrite seq_S, fmap_app, concat_app, IH. simpl. rewrite app_nil_r.
  rewrite take_take_drop. f_equal. lia.
Qed.

(** The grid of the gallery shows every record exactly once and in
    order: the rows put end to end are the list. Every row has between
    one and three records, so a row never needs a fourth column, and
    every row but the last one has three. *)
Theorem gallery_rows_partition {A} (all_images : list A) :
  concat (rows all_images) = all_images
  ∧ length (rows all_images) = ((length all_images + 2) / 3)%nat
  ∧ Forall (λ row, (1 ≤ length row ≤ 3)%nat) (rows all_images)
  ∧ (∀ k row,
       rows all_images !! k = Some row →
       (S k < length (rows all_images))%nat → length row = 3%nat).
Proof.
  rewrite rows_alt.
  pose proof (Nat.div_mod_eq (length all_images + 2) 3) as Hdiv.
  pose proof (Nat.mod_upper_bound (length all_images + 2) 3) as Hmod.
  set (m := ((length all_images + 2) / 3)%nat) in *.
  split_and!.
  - rewrite concat_rows. apply take_ge. lia.
  - by rewrite length_fmap, length_seq.
  - apply Forall_fmap, Forall_forall. intros k Hk%elem_of_seq. simpl.
    rewrite length_take, length_drop. lia.
  - intros k row Hrow. rewrite length_fmap, length_seq. intros Hk.
    rewrite list_lookup_fmap in Hrow.
    destruct (seq 0 m !! k) as [k'|] eqn:Ek; [|done].
    apply lookup_seq in Ek as [-> _]. injection Hrow as <-.
    rewrite length_take, length_drop. lia.
Qed.

(** The caption of a card is the prompt itself when the prompt has at
    most fifty characters, and otherwise its first fifty characters
    followed by three dots; it never has more than fifty-three
    characters. *)
Theorem caption_prompt_bounded (prompt : string) :
  (String.length (caption_prompt prompt) ≤ 53)%nat
  ∧ ((String.length prompt ≤ 50)%nat → caption_prompt prompt = prompt)
  ∧ ((50 < String.length prompt)%nat →
     caption_prompt prompt = Py.take 50 prompt +:+ "..."
     ∧ String.length (caption_prompt prompt) = 53%nat).
Proof.
  unfold caption_prompt, Py.len.
  destruct (Z.ltb_spec 50 (Z.of_nat (String.length prompt))) as [Hlong|Hshort].
  - split_and!.
    + rewrite PyExtra.length_app_string, PyExtra.take_length.
      change (String.length "...") with 3%nat. lia.
    + lia.
    + intros _. split; [done|].
      rewrite PyExtra.length_app_string, PyExtra.take_length.
      change (String.length "...") with 3%nat. lia.
  - split_and!.
    + rewrite PyExtra.take_length. lia.
    + intros _. apply PyExtra.take_all. lia.
    + lia.
Qed.

Lemma gallery_rows_partition_witness :
  rows [1; 2; 3; 4; 5] !! 0%nat = Some [1; 2; 3]
  ∧ (1 < length (rows [1; 2; 3; 4; 5]))%nat
  ∧ length [1; 2; 3] = 3%nat.
Proof.
  assert (rows [1; 2; 3; 4; 5] !! 0%nat = Some [1; 2; 3]) as Hrow
    by reflexivity.
  assert (1 < length (rows [1; 2; 3; 4; 5]))%nat as Hk by (simpl; lia).
  split_and!; [exact Hrow|exact Hk|].
  exact (proj2 (proj2 (proj2 (gallery_rows_partition [1; 2; 3; 4; 5])))
           0%nat [1; 2; 3] Hrow Hk).
Defined.

Lemma caption_prompt_bounded_witness :
  (String.length "a cat" ≤ 50)%nat ∧ caption_prompt "a cat" = "a cat".
Proof.
  assert (String.length "a cat" ≤ 50)%nat as Hlen by (simpl; lia).
  split; [exact Hlen|].
  exact (proj1 (proj2 (caption_prompt_bounded "a cat")) Hlen).
Defined.

Section Store.
Context `{Pillow}.

Lemma store_batch_spec st entries main_prompt style parameters now k :
  Forall (λ e, is_Some (HfApiHandler.be_image e)) entries →
  ∃ records,
    store_batch st entries main_prompt style parameters now k
    = Some {| GalleryManager.gallery := GalleryManager.gallery st ++ records;
              GalleryManager.total_generated :=
                GalleryManager.total_generated st
                + Z.of_nat (length entries) |}
    ∧ GalleryManager.seed <$> records
      = (λ e, Some (Some (HfApiHandler.be_seed e))) <$> entries
    ∧ Some ∘ GalleryManager.image <$> records
      = HfApiHandler.be_image <$> entries
    ∧ Forall (λ g, GalleryManager.prompt g = main_prompt
                   ∧ GalleryManager.style g = style
                   ∧ GalleryManager.favorite g = false) records.
Proof.
  revert st k. induction entries as [|e entries IH]; intros st k Hall.
  - exists []. simpl. rewrite app_nil_r, Z.add_0_r. by destruct st.
  - apply Forall_cons in Hall as [[image Himage] Hall].
    cbn [store_batch]. rewrite Himage.
    destruct (IH (GalleryManager.add_image st image main_prompt style
                    parameters (Some (HfApiHandler.be_seed e))
                    (now k).1 (now k).2).2 (S k) Hall)
      as (records & -> & Hseeds & Himages & Hfields).
    eexists (_ :: records). split_and!.
    + cbn [GalleryManager.add_image snd GalleryManager.gallery
           GalleryManager.total_generated].
      rewrite <- app_assoc. do 2 f_equal. simpl length. lia.
    + by rewrite !fmap_cons, Hseeds.
    + by rewrite !fmap_cons, Himages, Himage.
    + by constructor.
Qed.

(** Storing a batch never fails on a missing image: for the entries a
    batch returned, the loop of the application adds one record per
    entry, in order, with the image and the seed of the entry, the
    user's prompt and the style, not marked as favourite, and the
    lifetime counter grows by the number of entries. *)
Theorem batch_is_stored_entirely (env : HfApiHandler.Env)
    (a : HfApiHandler.gen_args) (count time_now : Z)
    (h : list HfApiHandler.event) (st : GalleryManager.session_state)
    (main_prompt style : string)
    (parameters : gmap string GalleryManager.value)
    (now : nat → GalleryManager.datetime * GalleryManager.datetime) :
  let successful_images :=
    (HfApiHandler.generate_multiple_images env a count time_now h).1.1 in
  ∃ records,
    store_batch st successful_images main_prompt style parameters now 0
    = Some {| GalleryManager.gallery := GalleryManager.gallery st ++ records;
              GalleryManager.total_generated :=
                GalleryManager.total_generated st
                + Z.of_nat (length successful_images) |}
    ∧ GalleryManager.seed <$> records
      = (λ e, Some (Some (HfApiHandler.be_seed e))) <$> successful_images
    ∧ Some ∘ GalleryManager.image <$> records
      = HfApiHandler.be_image <$> successful_images
    ∧ Forall (λ g, GalleryManager.prompt g = main_prompt
                   ∧ GalleryManager.style g = style
                   ∧ GalleryManager.favorite g = false) records.
Proof.
  cbn zeta. apply store_batch_spec.
  eapply Forall_impl;
    [apply (ClientExtra.batch_entries_bounded env a count time_now h)|].
  by intros e [? _].
Qed.

End Store.

End AppExtra.
